(** * docx/parts/footer.py: the FooterPart facade

    A shallow embedding of [FooterPart]: the get-or-create accessors for the
    styles, numbering and settings parts, the [next_id] allocator and the two
    style look-ups, each as a computation over an explicit object state that
    either returns a value or raises a Python exception. *)

From Stdlib Require Import String Ascii List ZArith Lia Bool Arith Permutation.
Import ListNotations.

Set Implicit Arguments.
Set Warnings "-register-all".

(** ** Exceptions *)

(** The exceptions that can travel through the methods of [FooterPart].
    [KeyError] is the one the accessors catch; [ValueError] is what the
    built-in [int] raises; [AttributeError] is what reading [.styles] or
    [.settings] on an object without that attribute raises; the last two
    are the style look-up errors. *)
Inductive exn : Type :=
| KeyError
| ValueError
| AttributeError
| WrongStyleType
| StyleNotFound.

Definition exn_eq_dec (a b : exn) : {a = b} + {a <> b}.
Proof. decide equality. Defined.

(** ** The built-ins [str.isdigit], [int] and [max]

    A [string] stands for a Python text string whose characters are the
    code points U+0000 to U+00FF, one [ascii] value per code point. *)
Module Py.

Definition code (c : ascii) : nat := nat_of_ascii c.

(** Code points with Numeric_Type=Decimal below U+0100: '0' to '9'. *)
Definition is_decimal_char (c : ascii) : bool :=
  (48 <=? code c)%nat && (code c <=? 57)%nat.

(** Code points with Numeric_Type=Digit below U+0100: the superscripts
    two (U+00B2), three (U+00B3) and one (U+00B9). *)
Definition is_superscript_char (c : ascii) : bool :=
  (code c =? 178)%nat || (code c =? 179)%nat || (code c =? 185)%nat.

(** A character counts for [str.isdigit] when its Numeric_Type is Decimal
    or Digit. *)
Definition is_digit_char (c : ascii) : bool :=
  is_decimal_char c || is_superscript_char c.

Fixpoint all_chars (p : ascii -> bool) (s : string) : bool :=
  match s with
  | EmptyString => true
  | String c r => p c && all_chars p r
  end.

(** [s.isdigit()]: at least one character, and all of them digits. *)
Definition isdigit (s : string) : bool :=
  match s with
  | EmptyString => false
  | String _ _ => all_chars is_digit_char s
  end.

(** [s.isdecimal()], used only to state theorems. *)
Definition isdecimal (s : string) : bool :=
  match s with
  | EmptyString => false
  | String _ _ => all_chars is_decimal_char s
  end.

Definition digit_value (c : ascii) : Z := Z.of_nat (code c) - 48.

Fixpoint int_from (acc : Z) (s : string) : option Z :=
  match s with
  | EmptyString => Some acc
  | String c r =>
      if is_decimal_char c then int_from (10 * acc + digit_value c) r
      else None
  end.

(** [int(s)] in base ten, on the strings [next_id] hands to it (those that
    passed [isdigit]): decimal characters are read by value, most
    significant first, into an unbounded integer; any other character is
    an invalid literal and raises [ValueError]. Signs, surrounding white
    space and underscores never reach [int] here and are not read; the
    interpreter's configurable cap on the length of a literal, where it has
    one, is not modelled. *)
Definition int (s : string) : exn + Z :=
  match s with
  | EmptyString => inl ValueError
  | String _ _ =>
      match int_from 0 s with
      | Some v => inr v
      | None => inl ValueError
      end
  end.

(** [max(l)] of a list: [ValueError] on the empty list. *)
Definition max (l : list Z) : exn + Z :=
  match l with
  | [] => inl ValueError
  | x :: r => inr (fold_left Z.max r x)
  end.

End Py.

(** ** XML *)

(** An attribute with its namespace prefix when it has one: [w:id] is
    [Attr (Some "w") "id" v], a bare [id] is [Attr None "id" v]. *)
Record Attr : Type := mkAttr {
  attr_ns : option string;
  attr_name : string;
  attr_value : string
}.

Inductive Element : Type :=
| Elem (tag : string) (attrs : list Attr) (children : list Element).

Definition is_id_attr (a : Attr) : bool :=
  match attr_ns a with
  | None => String.eqb (attr_name a) "id"
  | Some _ => false
  end.

(** The values of the attributes an element itself carries under the bare
    name [id]. *)
Definition own_ids (attrs : list Attr) : list string :=
  map attr_value (filter is_id_attr attrs).

(** [root.xpath('//@id')]: every attribute named [id] and in no namespace,
    on any element of the tree, in document order. *)
Fixpoint xpath_all_id (e : Element) : list string :=
  match e with
  | Elem _ attrs children => own_ids attrs ++ flat_map xpath_all_id children
  end.

(** What a caller does to use an id: it writes a new last child under the
    root. *)
Definition append_child (e c : Element) : Element :=
  match e with
  | Elem tag attrs children => Elem tag attrs (children ++ [c])
  end.

(** What is left of a tree when element names, attributes other than the
    bare [id] and attributes in a namespace are taken away. *)
Fixpoint skeleton (e : Element) : Element :=
  match e with
  | Elem _ attrs children =>
      Elem EmptyString (filter is_id_attr attrs) (map skeleton children)
  end.

(** [[int(id_str) for id_str in id_str_lst if id_str.isdigit()]]: the
    comprehension stops at the first [int] that raises. *)
Fixpoint used_ids_of (id_str_lst : list string) : exn + list Z :=
  match id_str_lst with
  | [] => inr []
  | id_str :: rest =>
      if Py.isdigit id_str then
        match Py.int id_str with
        | inl e => inl e
        | inr v =>
            match used_ids_of rest with
            | inl e => inl e
            | inr vs => inr (v :: vs)
            end
        end
      else used_ids_of rest
  end.

(** ** Styles *)

Module DocxStyles.

(** Modelled from the spec: the style types, WD_STYLE_TYPE of
    docx/enum/style.py, which is not in the source tree. *)
Inductive StyleType : Type := PARAGRAPH | CHARACTER | TABLE | LIST.

Definition StyleType_eq_dec (a b : StyleType) : {a = b} + {a <> b}.
Proof. decide equality. Defined.

(** Modelled from the spec: a style, with its canonical identifier, its
    human-readable name and its type. *)
Record Style : Type := mkStyle {
  style_id : string;
  name : string;
  type : StyleType
}.

Definition Style_eq_dec (a b : Style) : {a = b} + {a <> b}.
Proof.
  decide equality; auto using string_dec, StyleType_eq_dec.
Defined.

(** Modelled from the spec: the [Styles] object of docx/styles/styles.py,
    which is not in the source tree. It holds the styles the document
    defines and, for each style type, that type's designated default
    style, itself a style of that type. *)
Record Styles : Type := mkStyles {
  defined : list Style;
  default : StyleType -> Style;
  default_type : forall t, type (default t) = t
}.

Definition has_id_and_type (i : string) (t : StyleType) (st : Style) : bool :=
  String.eqb (style_id st) i && (if StyleType_eq_dec (type st) t then true else false).

(** Modelled from the spec: [Styles.get_by_id], absent from the source
    tree. 4.3: the style matching the id and the type if present; the
    type's default style if the id is absent or matches no defined style
    of that type. *)
Definition get_by_id (S : Styles) (sid : option string) (t : StyleType) : Style :=
  match sid with
  | None => default S t
  | Some i =>
      match find (has_id_and_type i t) (defined S) with
      | Some st => st
      | None => default S t
      end
  end.

(** A style is named by its identifier or by its human-readable name. *)
Definition named_by (s : string) (st : Style) : bool :=
  String.eqb (style_id st) s || String.eqb (name st) s.

(** Modelled from the spec: [Styles.get_style_id], absent from the source
    tree. 4.3: an absent input gives an absent result; a name no style
    bears is StyleNotFound; a style of another type is WrongStyleType; the
    default of the type gives an absent result; otherwise the canonical
    id. *)
Definition get_style_id (S : Styles) (style_or_name : option string)
    (t : StyleType) : exn + option string :=
  match style_or_name with
  | None => inr None
  | Some s =>
      match find (named_by s) (defined S) with
      | None => inl StyleNotFound
      | Some st =>
          if StyleType_eq_dec (type st) t then
            if Style_eq_dec st (default S t) then inr None
            else inr (Some (style_id st))
          else inl WrongStyleType
      end
  end.

End DocxStyles.

Import DocxStyles.

(** ** Parts, relationships and the object state *)

(** Modelled from the spec: RELATIONSHIP_TYPE of docx/opc/constants.py,
    which is not in the source tree. 3 names STYLES, NUMBERING, SETTINGS and
    CORE-PROPERTIES; the first three are the ones footer.py uses. *)
Inductive RT : Type := STYLES | NUMBERING | SETTINGS | CORE_PROPERTIES.

Definition RT_eq_dec (a b : RT) : {a = b} + {a <> b}.
Proof. decide equality. Defined.

Definition RT_eqb (a b : RT) : bool := if RT_eq_dec a b then true else false.

(** The singleton relationship types: the three the accessors resolve. *)
Definition singleton (T : RT) : bool :=
  match T with
  | STYLES | NUMBERING | SETTINGS => true
  | CORE_PROPERTIES => false
  end.

(** Modelled from the spec: the settings object a settings part exposes,
    a view on the settings XML. *)
Record Settings : Type := mkSettings { settings_element : Element }.

(** Modelled from the spec: a part object, by concrete class (the classes
    of docx/parts/, not in the source tree), with what the class exposes. *)
Inductive Part : Type :=
| StylesPart (styles : Styles)
| NumberingPart
| SettingsPart (settings : Settings)
| OtherPart.

(** Objects are referred to by their address in the object store, so that
    "the same instance" is equality of addresses. *)
Definition ref : Type := nat.

(** Modelled from the spec: 3, a relationship is a typed edge to a target
    part. *)
Record Relationship : Type := mkRel { reltype : RT; target_part : ref }.

(** Calls to the collaborators, recorded so that theorems can say which
    calls an access makes. The record is not part of the program state. *)
Inductive Call : Type :=
| Call_part_related_by (T : RT)
| Call_relate_to (target : ref) (T : RT)
| Call_factory (T : RT).

Definition Call_eq_dec (a b : Call) : {a = b} + {a <> b}.
Proof. decide equality; auto using RT_eq_dec, Nat.eq_dec. Defined.

(** A [FooterPart] instance together with the objects it can reach:
    [element] is [self._element], the root of the part's XML; [rels] is the
    part's outbound relationships, oldest first; [lazy_numbering_part] is
    the slot in which [@lazyproperty] keeps the value of [numbering_part];
    [objects] is the store of part objects; [calls] is the call record, most
    recent first. *)
Record State : Type := mkState {
  element : Element;
  rels : list Relationship;
  lazy_numbering_part : option ref;
  objects : list Part;
  calls : list Call
}.

(** ** Computations that return or raise *)

Inductive outcome (A : Type) : Type :=
| Returns (a : A) (s : State)
| Raises (e : exn) (s : State).

Arguments Raises {A} e s.

Definition M (A : Type) : Type := State -> outcome A.

Definition ret {A} (a : A) : M A := fun s => Returns a s.

Definition raise {A} (e : exn) : M A := fun s => Raises e s.

Definition bind {A B} (m : M A) (k : A -> M B) : M B :=
  fun s =>
    match m s with
    | Returns a s' => k a s'
    | Raises e s' => Raises e s'
    end.

Declare Scope py_scope.
Delimit Scope py_scope with py.
Notation "x <- m ;; k" := (bind m (fun x => k))
  (at level 100, m at next level, right associativity) : py_scope.
Notation "m ;;; k" := (bind m (fun _ => k))
  (at level 100, right associativity) : py_scope.
Open Scope py_scope.

(** [try: body except e: handler]: the handler runs in the state the body
    left behind when it raised [e]; any other exception passes through. *)
Definition try_except {A} (body : M A) (e : exn) (handler : M A) : M A :=
  fun s =>
    match body s with
    | Returns a s' => Returns a s'
    | Raises e' s' => if exn_eq_dec e' e then handler s' else Raises e' s'
    end.

Definition lift {A} (r : exn + A) : M A :=
  fun s => match r with inl e => Raises e s | inr a => Returns a s end.

(** The state an outcome ends in, whether it returned or raised. *)
Definition final {A} (o : outcome A) : State :=
  match o with Returns _ s => s | Raises _ s => s end.

Definition set_rels (r : list Relationship) (s : State) : State :=
  mkState (element s) r (lazy_numbering_part s) (objects s) (calls s).

Definition set_lazy_numbering_part (c : option ref) (s : State) : State :=
  mkState (element s) (rels s) c (objects s) (calls s).

Definition set_objects (o : list Part) (s : State) : State :=
  mkState (element s) (rels s) (lazy_numbering_part s) o (calls s).

Definition set_element (e : Element) (s : State) : State :=
  mkState e (rels s) (lazy_numbering_part s) (objects s) (calls s).

Definition set_calls (c : list Call) (s : State) : State :=
  mkState (element s) (rels s) (lazy_numbering_part s) (objects s) c.

Definition record_call (c : Call) : M unit :=
  fun s => Returns tt (set_calls (c :: calls s) s).

(** ** The collaborators of docx/opc/part.py and docx/shared.py *)

Definition of_type (T : RT) (r : Relationship) : bool := RT_eqb (reltype r) T.

(** Modelled from the spec: [Part.part_related_by], absent from the source
    tree. 6 and 7: the target of the outbound relationship of the given
    type, or the not-found error ([KeyError]) when no edge of that type
    exists. *)
Definition part_related_by (T : RT) : M ref :=
  record_call (Call_part_related_by T) ;;;
  fun s =>
    match find (of_type T) (rels s) with
    | Some r => Returns (target_part r) s
    | None => Raises KeyError s
    end.

(** Modelled from the spec: [Part.relate_to], absent from the source tree.
    4.1: creates a new relationship of the given type from this part to the
    target and keeps the edge. *)
Definition relate_to (target : ref) (T : RT) : M unit :=
  record_call (Call_relate_to target T) ;;;
  fun s => Returns tt (set_rels (rels s ++ [mkRel T target]) s).

(** A constructor call: the new object gets the next free address. *)
Definition new_object (p : Part) : M ref :=
  fun s => Returns (length (objects s)) (set_objects (objects s ++ [p]) s).

(** Modelled from the spec: [lazyproperty] of docx/shared.py, absent from
    the source tree. 9: a cache field that starts unset and is filled by
    the first access; later accesses return the cached value without
    running the getter. A getter that raises leaves the field unset. *)
Definition lazyproperty {A} (slot : State -> option A)
    (fill : option A -> State -> State) (fget : M A) : M A :=
  fun s =>
    match slot s with
    | Some v => Returns v s
    | None =>
        match fget s with
        | Returns v s' => Returns v (fill (Some v) s')
        | Raises e s' => Raises e s'
        end
    end.

(** The three dependent-part accessors, and the relationship type each one
    resolves. *)
Inductive Accessor : Type := The_styles_part | The_numbering_part | The_settings_part.

Definition reltype_of (a : Accessor) : RT :=
  match a with
  | The_styles_part => STYLES
  | The_numbering_part => NUMBERING
  | The_settings_part => SETTINGS
  end.

(** The value an outcome carries, without the state. *)
Definition value {A} (o : outcome A) : exn + A :=
  match o with Returns a _ => inr a | Raises e _ => inl e end.

(** ** State predicates *)

(** The number of outbound relationships of type [T]. *)
Definition count_rels (T : RT) (s : State) : nat :=
  length (filter (of_type T) (rels s)).

(** 3, Part: at most one outbound relationship of each singleton type. *)
Definition singleton_inv (s : State) : Prop :=
  forall T, singleton T = true -> (count_rels T s <= 1)%nat.

(** The cache slot of [numbering_part] only ever holds a part this part is
    related to by NUMBERING. *)
Definition cache_sound (s : State) : Prop :=
  forall p, lazy_numbering_part s = Some p -> In (mkRel NUMBERING p) (rels s).

(** 3, Relationship: the concrete class of a target matches the type of
    the relationship. *)
Definition kind_matches (T : RT) (p : Part) : bool :=
  match T, p with
  | STYLES, StylesPart _ => true
  | NUMBERING, NumberingPart => true
  | SETTINGS, SettingsPart _ => true
  | CORE_PROPERTIES, OtherPart => true
  | _, _ => false
  end.

Definition rel_kind_ok (objs : list Part) (r : Relationship) : bool :=
  match nth_error objs (target_part r) with
  | Some p => kind_matches (reltype r) p
  | None => false
  end.

Definition kinds_ok (s : State) : Prop :=
  forallb (rel_kind_ok (objects s)) (rels s) = true.

(** [st] is the style the name [n] resolves to: the first defined style
    that bears [n] as identifier or as name. *)
Definition resolves_to (sty : Styles) (n : string) (st : Style) : Prop :=
  exists before after,
    defined sty = before ++ st :: after /\
    named_by n st = true /\
    forall x, In x before -> named_by n x = false.

(** No defined style bears [n]. *)
Definition names_nothing (sty : Styles) (n : string) : Prop :=
  forall x, In x (defined sty) -> style_id x <> n /\ name x <> n.

(** Some defined style has identifier [i] and type [t]. *)
Definition defines (sty : Styles) (i : string) (t : StyleType) : Prop :=
  exists st, In st (defined sty) /\ style_id st = i /\ type st = t.

(** ** Sample documents *)

Definition bare (n v : string) : Attr := mkAttr None n v.

Definition prefixed (ns n v : string) : Attr := mkAttr (Some ns) n v.

(** The one-character strings U+00B2 and U+00B9. *)
Definition superscript_two : string := String (ascii_of_nat 178) EmptyString.

Definition superscript_one : string := String (ascii_of_nat 185) EmptyString.

(** A footer whose bare [id] attributes are 3, 7, x and 1, on elements of
    different kinds and depths; the prefixed [w:id] is not a bare [id]. *)
Definition footer_3_7_x_1 : Element :=
  Elem "w:ftr" []
    [ Elem "w:p" [prefixed "w" "id" "99"]
        [ Elem "wp:docPr" [bare "id" "3"; bare "name" "Picture 3"] [];
          Elem "pic:cNvPr" [bare "id" "7"] [] ];
      Elem "w:bookmarkStart" [bare "id" "x"] [];
      Elem "wp:docPr" [bare "id" "1"] [] ].

(** A footer with no [id] attribute at all. *)
Definition footer_no_id : Element :=
  Elem "w:ftr" [] [ Elem "w:p" [prefixed "w" "rsidR" "00A1"] [ Elem "w:r" [] [] ] ].

(** The footer above with the id U+00B2 in place of x. *)
Definition footer_3_7_sup2_1 : Element :=
  Elem "w:ftr" []
    [ Elem "w:p" []
        [ Elem "wp:docPr" [bare "id" "3"] [];
          Elem "pic:cNvPr" [bare "id" "7"] [] ];
      Elem "w:bookmarkStart" [bare "id" superscript_two] [];
      Elem "wp:docPr" [bare "id" "1"] [] ].

Definition footer_0 : Element :=
  Elem "w:ftr" [] [ Elem "wp:docPr" [bare "id" "0"] [] ].

Definition footer_007 : Element :=
  Elem "w:ftr" [] [ Elem "wp:docPr" [bare "id" "007"] [] ].

Definition footer_0_sup1 : Element :=
  Elem "w:ftr" []
    [ Elem "wp:docPr" [bare "id" "0"] [];
      Elem "wp:docPr" [bare "id" superscript_one] [] ].

(** The ids 1, x, 7 and 3 again, in another order, on other elements and
    beside other attributes. *)
Definition footer_1_x_7_3 : Element :=
  Elem "w:ftr" [bare "id" "1"]
    [ Elem "w:tbl" [bare "id" "x"; prefixed "w" "id" "12"]
        [ Elem "w:tr" [] [ Elem "a:blip" [bare "id" "7"] [] ] ];
      Elem "v:shape" [bare "style" "width:1pt"; bare "id" "3"] [] ].

(** A part as it is right after loading a package that holds no
    relationship from it: nothing cached, nothing called yet. *)
Definition loaded (e : Element) : State := mkState e [] None [] [].

Definition Normal : Style := mkStyle "Normal" "Normal" PARAGRAPH.
Definition Heading1 : Style := mkStyle "Heading1" "Heading 1" PARAGRAPH.
Definition DefaultParagraphFont : Style :=
  mkStyle "DefaultParagraphFont" "Default Paragraph Font" CHARACTER.
Definition Emphasis : Style := mkStyle "Emphasis" "Emphasis" CHARACTER.
Definition TableNormal : Style := mkStyle "TableNormal" "Normal Table" TABLE.
Definition NoList : Style := mkStyle "NoList" "No List" LIST.

Definition sample_styles : Styles :=
  mkStyles [Normal; Heading1; DefaultParagraphFont; Emphasis; TableNormal; NoList]
    (fun t =>
       match t with
       | PARAGRAPH => Normal
       | CHARACTER => DefaultParagraphFont
       | TABLE => TableNormal
       | LIST => NoList
       end)
    (fun t =>
       match t with
       | PARAGRAPH => eq_refl
       | CHARACTER => eq_refl
       | TABLE => eq_refl
       | LIST => eq_refl
       end).

Definition sample_settings : Settings := mkSettings (Elem "w:settings" [] []).

(** A part loaded with a styles relationship already in place. *)
Definition loaded_with_styles : State :=
  mkState footer_3_7_x_1 [mkRel STYLES 0] None [StylesPart sample_styles] [].

(** A document that defines the style Normal and no other, and a part
    loaded with the styles part of that document. *)
Definition normal_only_styles : Styles :=
  mkStyles [Normal] (default sample_styles) (default_type sample_styles).

Definition loaded_with_normal_only : State :=
  mkState footer_no_id [mkRel STYLES 0] None [StylesPart normal_only_styles] [].


(** ** FooterPart *)

Section FooterPart.

(** What the factories of the three part classes put in a new part: the
    classes live in docx/parts/styles.py, numbering.py and settings.py,
    outside the source tree, so the content of a default part is a
    parameter. *)
Variable default_styles : Styles.
Variable default_settings : Settings.

(** Modelled from the spec: [StylesPart.default(package)], 6: the factory
    of a default styles part. The package is only handed on to the new
    part. *)
Definition StylesPart_default : M ref :=
  record_call (Call_factory STYLES) ;;; new_object (StylesPart default_styles).

(** Modelled from the spec: [NumberingPart.new()], 6: the factory of an
    empty numbering part. *)
Definition NumberingPart_new : M ref :=
  record_call (Call_factory NUMBERING) ;;; new_object NumberingPart.

(** Modelled from the spec: [SettingsPart.default(package)], 6: the factory
    of a default settings part. *)
Definition SettingsPart_default : M ref :=
  record_call (Call_factory SETTINGS) ;;; new_object (SettingsPart default_settings).

(** [@lazyproperty numbering_part], lines 91-103. *)
Definition numbering_part : M ref :=
  lazyproperty lazy_numbering_part set_lazy_numbering_part
    (try_except (part_related_by NUMBERING) KeyError
       (numbering_part <- NumberingPart_new ;;
        relate_to numbering_part NUMBERING ;;;
        ret numbering_part)).

(** [@property _settings_part], lines 120-132. *)
Definition _settings_part : M ref :=
  try_except (part_related_by SETTINGS) KeyError
    (settings_part <- SettingsPart_default ;;
     relate_to settings_part SETTINGS ;;;
     ret settings_part).

(** [@property _styles_part], lines 134-145. *)
Definition _styles_part : M ref :=
  try_except (part_related_by STYLES) KeyError
    (styles_part <- StylesPart_default ;;
     relate_to styles_part STYLES ;;;
     ret styles_part).

(** Reading [.styles] on a part object: only a styles part has it. *)
Definition getattr_styles (p : ref) : M Styles :=
  fun s =>
    match nth_error (objects s) p with
    | Some (StylesPart sty) => Returns sty s
    | _ => Raises AttributeError s
    end.

(** Reading [.settings] on a part object: only a settings part has it. *)
Definition getattr_settings (p : ref) : M Settings :=
  fun s =>
    match nth_error (objects s) p with
    | Some (SettingsPart stg) => Returns stg s
    | _ => Raises AttributeError s
    end.

(** [@property styles], lines 69-75. *)
Definition styles : M Styles :=
  p <- _styles_part ;; getattr_styles p.

(** [@property settings], lines 112-118. *)
Definition settings : M Settings :=
  p <- _settings_part ;; getattr_settings p.

(** [get_style], lines 43-49. *)
Definition get_style (sid : option string) (style_type : StyleType) : M Style :=
  sty <- styles ;; ret (DocxStyles.get_by_id sty sid style_type).

(** [get_style_id], lines 51-59. *)
Definition get_style_id (style_or_name : option string) (style_type : StyleType)
    : M (option string) :=
  sty <- styles ;; lift (DocxStyles.get_style_id sty style_or_name style_type).

(** [@property next_id], lines 77-89. *)
Definition next_id : M Z :=
  fun s =>
    let id_str_lst := xpath_all_id (element s) in
    (used_ids <- lift (used_ids_of id_str_lst) ;;
     match used_ids with
     | [] => ret 1%Z
     | _ :: _ => m <- lift (Py.max used_ids) ;; ret (m + 1)%Z
     end) s.

Definition access (a : Accessor) : M ref :=
  match a with
  | The_styles_part => _styles_part
  | The_numbering_part => numbering_part
  | The_settings_part => _settings_part
  end.

(** What an accessor has to go on before it runs: the cached part for
    [numbering_part], else the target of the first relationship of its
    type. *)
Definition known (a : Accessor) (s : State) : option ref :=
  let found := option_map target_part (find (of_type (reltype_of a)) (rels s)) in
  match a with
  | The_numbering_part =>
      match lazy_numbering_part s with
      | Some p => Some p
      | None => found
      end
  | _ => found
  end.

(** The part each factory builds. *)
Definition default_part (a : Accessor) : Part :=
  match a with
  | The_styles_part => StylesPart default_styles
  | The_numbering_part => NumberingPart
  | The_settings_part => SettingsPart default_settings
  end.

(** The state after a look-up that found the relationship: one call more
    on the record. *)
Definition looked_up (T : RT) (s : State) : State :=
  set_calls (Call_part_related_by T :: calls s) s.

(** The state after a look-up that missed: the new object at the next free
    address, the new edge last, and the three calls on the record. *)
Definition created (T : RT) (p : Part) (s : State) : State :=
  mkState (element s)
    (rels s ++ [mkRel T (length (objects s))])
    (lazy_numbering_part s)
    (objects s ++ [p])
    (Call_relate_to (length (objects s)) T :: Call_factory T
       :: Call_part_related_by T :: calls s).

(** What [@lazyproperty] adds to an access: it fills the slot of
    [numbering_part]; the other two accessors keep nothing. *)
Definition remember (a : Accessor) (p : ref) (s : State) : State :=
  match a with
  | The_numbering_part => set_lazy_numbering_part (Some p) s
  | _ => s
  end.

(** The operations of the facade that reach the relationships or the XML
    of the part. [core_properties], [footer], [inline_shapes] and [save]
    only forward to the package or wrap [self._element]. *)
Inductive Op : Type :=
| Op_get_style (sid : option string) (style_type : StyleType)
| Op_get_style_id (style_or_name : option string) (style_type : StyleType)
| Op_styles
| Op_next_id
| Op_numbering_part
| Op_settings
| Op__settings_part
| Op__styles_part.

Definition discard {A} (m : M A) : M unit := m ;;; ret tt.

Definition exec (o : Op) : M unit :=
  match o with
  | Op_get_style sid t => discard (get_style sid t)
  | Op_get_style_id n t => discard (get_style_id n t)
  | Op_styles => discard styles
  | Op_next_id => discard next_id
  | Op_numbering_part => discard numbering_part
  | Op_settings => discard settings
  | Op__settings_part => discard _settings_part
  | Op__styles_part => discard _styles_part
  end.

(** The accessor an operation goes through, if any. *)
Definition accessor_of (o : Op) : option Accessor :=
  match o with
  | Op_get_style _ _ | Op_get_style_id _ _ | Op_styles | Op__styles_part =>
      Some The_styles_part
  | Op_numbering_part => Some The_numbering_part
  | Op_settings | Op__settings_part => Some The_settings_part
  | Op_next_id => None
  end.

Definition goes_through (a : Accessor) (o : Op) : bool :=
  match accessor_of o, a with
  | Some The_styles_part, The_styles_part => true
  | Some The_numbering_part, The_numbering_part => true
  | Some The_settings_part, The_settings_part => true
  | _, _ => false
  end.

(** The state a sequence of operations leaves, whatever each one returns
    or raises. *)
Definition after (ops : list Op) (s : State) : State :=
  fold_left (fun s' o => final (exec o s')) ops s.

(** The accessor [a] has its part [p] settled in [s]: in the cache slot for
    [numbering_part], as the target of the first relationship of its type
    for the other two. *)
Definition settled (a : Accessor) (p : ref) (s : State) : Prop :=
  match a with
  | The_numbering_part => lazy_numbering_part s = Some p
  | _ => exists r, find (of_type (reltype_of a)) (rels s) = Some r /\ target_part r = p
  end.

(** How many times [part_related_by] has been called for the type [T]. *)
Definition lookups (T : RT) (s : State) : nat :=
  count_occ Call_eq_dec (calls s) (Call_part_related_by T).

(** The second claim of caching, as 4.1 and 4.3 word it for all three
    accessors: once an accessor has returned, a repeat access does not
    call [part_related_by] again. *)
Definition repeat_access_skips_lookup : Prop :=
  forall (a : Accessor) (s s1 : State) (p : ref),
    access a s = Returns p s1 ->
    lookups (reltype_of a) (final (access a s1)) = lookups (reltype_of a) s1.

Unset Implicit Arguments.

(** ** The built-ins *)

Lemma decimal_char_is_digit (c : ascii) :
  Py.is_decimal_char c = true -> Py.is_digit_char c = true.
Proof. unfold Py.is_digit_char. intros ->. reflexivity. Qed.

Lemma digit_value_range (c : ascii) :
  Py.is_decimal_char c = true -> (0 <= Py.digit_value c <= 9)%Z.
Proof.
  unfold Py.is_decimal_char, Py.digit_value. intros H.
  apply andb_prop in H. destruct H as [Hlo Hhi].
  apply Nat.leb_le in Hlo. apply Nat.leb_le in Hhi. lia.
Qed.

Lemma int_from_nonneg (s : string) :
  forall acc v, (0 <= acc)%Z -> Py.int_from acc s = Some v -> (0 <= v)%Z.
Proof.
  induction s as [| c r IH]; simpl; intros acc v Hacc H.
  - inversion H. subst. assumption.
  - destruct (Py.is_decimal_char c) eqn:Hc; [| discriminate].
    apply (IH (10 * acc + Py.digit_value c)%Z); [| assumption].
    pose proof (digit_value_range c Hc). lia.
Qed.

Lemma int_from_decimal (s : string) :
  forall acc, Py.all_chars Py.is_decimal_char s = true ->
              exists v, Py.int_from acc s = Some v.
Proof.
  induction s as [| c r IH]; simpl; intros acc H.
  - eauto.
  - apply andb_prop in H. destruct H as [Hc Hr]. rewrite Hc. auto.
Qed.

Lemma int_from_some_decimal (s : string) :
  forall acc v, Py.int_from acc s = Some v ->
                Py.all_chars Py.is_decimal_char s = true.
Proof.
  induction s as [| c r IH]; simpl; intros acc v H.
  - reflexivity.
  - destruct (Py.is_decimal_char c); [| discriminate]. simpl. eauto.
Qed.

(** [int] accepts exactly the strings [isdecimal] accepts. *)
Lemma int_returns_iff_isdecimal (s : string) :
  (exists v, Py.int s = inr v) <-> Py.isdecimal s = true.
Proof.
  unfold Py.int, Py.isdecimal. destruct s as [| c r].
  - split; [intros [v H]; discriminate | discriminate].
  - split.
    + intros [v H]. destruct (Py.int_from 0 (String c r)) eqn:E; [| discriminate].
      eapply int_from_some_decimal; eauto.
    + intros H. destruct (int_from_decimal (String c r) 0%Z H) as [v Hv].
      rewrite Hv. eauto.
Qed.

Lemma int_raises_ValueError (s : string) (e : exn) :
  Py.int s = inl e -> e = ValueError.
Proof.
  unfold Py.int. destruct s; [congruence |].
  destruct (Py.int_from 0 _); congruence.
Qed.

Lemma int_nonneg (s : string) (v : Z) : Py.int s = inr v -> (0 <= v)%Z.
Proof.
  unfold Py.int. destruct s; [discriminate |].
  destruct (Py.int_from 0 _) eqn:E; [| discriminate].
  intros H. inversion H. subst. eapply int_from_nonneg; [| exact E]. lia.
Qed.

Lemma isdecimal_isdigit (s : string) :
  Py.isdecimal s = true -> Py.isdigit s = true.
Proof.
  unfold Py.isdecimal, Py.isdigit. destruct s as [| c r]; [discriminate |].
  generalize (String c r). intros t. induction t as [| d u IH]; simpl.
  - reflexivity.
  - intros H. apply andb_prop in H. destruct H as [Hd Hu].
    rewrite (decimal_char_is_digit d Hd). simpl. auto.
Qed.

Lemma fold_max_ge_init (l : list Z) :
  forall x, (x <= fold_left Z.max l x)%Z.
Proof.
  induction l as [| y r IH]; simpl; intros x.
  - lia.
  - specialize (IH (Z.max x y)). lia.
Qed.

Lemma fold_max_ge_all (l : list Z) :
  forall x y, In y l -> (y <= fold_left Z.max l x)%Z.
Proof.
  induction l as [| z r IH]; simpl; intros x y Hin.
  - contradiction.
  - destruct Hin as [-> | Hin].
    + pose proof (fold_max_ge_init r (Z.max x y)). lia.
    + apply IH. assumption.
Qed.


(** ** The comprehension of [next_id] *)

Lemma used_ids_of_sound (l : list string) :
  forall vs, used_ids_of l = inr vs ->
  forall id_str, In id_str l -> Py.isdigit id_str = true ->
  exists v, Py.int id_str = inr v /\ In v vs.
Proof.
  induction l as [| a r IH]; simpl; intros vs H id_str Hin Hd.
  - contradiction.
  - destruct (Py.isdigit a) eqn:Ha.
    + destruct (Py.int a) as [e | v] eqn:Hv; [discriminate |].
      destruct (used_ids_of r) as [e | ws] eqn:Hr; [discriminate |].
      inversion H. subst vs. destruct Hin as [-> | Hin].
      * exists v. split; [assumption | left; reflexivity].
      * destruct (IH ws eq_refl id_str Hin Hd) as [w [Hw Hinw]].
        exists w. split; [assumption | right; assumption].
    + destruct Hin as [-> | Hin]; [congruence |]. eauto.
Qed.

Lemma used_ids_of_complete (l : list string) :
  forall vs, used_ids_of l = inr vs ->
  forall v, In v vs ->
  exists id_str, In id_str l /\ Py.isdigit id_str = true /\ Py.int id_str = inr v.
Proof.
  induction l as [| a r IH]; simpl; intros vs H v Hin.
  - inversion H. subst. contradiction.
  - destruct (Py.isdigit a) eqn:Ha.
    + destruct (Py.int a) as [e | w] eqn:Hw; [discriminate |].
      destruct (used_ids_of r) as [e | ws] eqn:Hr; [discriminate |].
      inversion H. subst vs. destruct Hin as [<- | Hin].
      * exists a. auto.
      * destruct (IH ws eq_refl v Hin) as [i [Hi1 Hi2]]. exists i. auto.
    + destruct (IH vs H v Hin) as [i [Hi1 Hi2]]. exists i. auto.
Qed.

Lemma used_ids_of_nonneg (l : list string) (vs : list Z) :
  used_ids_of l = inr vs -> forall v, In v vs -> (0 <= v)%Z.
Proof.
  intros H v Hin.
  destruct (used_ids_of_complete l vs H v Hin) as [i [_ [_ Hi]]].
  eapply int_nonneg; eauto.
Qed.

(** The comprehension raises exactly when [int] raises on an id that
    passed [isdigit], and then it is [ValueError]. *)
Lemma used_ids_of_raises (l : list string) (e : exn) :
  used_ids_of l = inl e ->
  e = ValueError /\
  exists id_str, In id_str l /\ Py.isdigit id_str = true /\ Py.int id_str = inl ValueError.
Proof.
  induction l as [| a r IH]; simpl; intros H.
  - discriminate.
  - destruct (Py.isdigit a) eqn:Ha.
    + destruct (Py.int a) as [e' | v] eqn:Hv.
      * inversion H. subst e'. pose proof (int_raises_ValueError a e Hv) as He.
        split; [exact He |]. exists a. subst e. auto.
      * destruct (used_ids_of r) as [e' | ws] eqn:Hr; [| discriminate].
        inversion H. subst e'. destruct (IH eq_refl) as [He [i [Hi1 Hi2]]].
        split; [assumption |]. exists i. auto.
    + destruct (IH H) as [He [i [Hi1 Hi2]]]. split; [assumption |]. exists i. auto.
Qed.

Lemma used_ids_of_returns (l : list string) :
  (forall id_str, In id_str l -> Py.isdigit id_str = true ->
                  exists v, Py.int id_str = inr v) ->
  exists vs, used_ids_of l = inr vs.
Proof.
  intros H. destruct (used_ids_of l) as [e | vs] eqn:E; [| eauto].
  destruct (used_ids_of_raises l e E) as [_ [i [Hi1 [Hi2 Hi3]]]].
  destruct (H i Hi1 Hi2) as [v Hv]. congruence.
Qed.

(** ** [next_id] *)

Lemma next_id_unfold (s : State) :
  next_id s =
  match used_ids_of (xpath_all_id (element s)) with
  | inl e => Raises e s
  | inr [] => Returns 1%Z s
  | inr (x :: r) => Returns (fold_left Z.max r x + 1)%Z s
  end.
Proof.
  unfold next_id, bind, lift, ret.
  destruct (used_ids_of (xpath_all_id (element s))) as [e | [| x r]]; reflexivity.
Qed.

Lemma next_id_final (s : State) : final (next_id s) = s.
Proof.
  rewrite next_id_unfold.
  destruct (used_ids_of (xpath_all_id (element s))) as [e | [| x r]]; reflexivity.
Qed.

(** X3. Whatever [next_id] raises is the [ValueError] that [int] raised on
    an id that had passed [isdigit]; the state is left as it was. *)
Lemma next_id_raises_inv (s s' : State) (e : exn) :
  next_id s = Raises e s' ->
  e = ValueError /\
  s' = s /\
  exists id_str, In id_str (xpath_all_id (element s)) /\
                 Py.isdigit id_str = true /\ Py.int id_str = inl ValueError.
Proof.
  rewrite next_id_unfold.
  destruct (used_ids_of (xpath_all_id (element s))) as [e' | [| x r]] eqn:E;
    intros H; try discriminate.
  inversion H. subst.
  destruct (used_ids_of_raises _ _ E) as [He Hid].
  split; [exact He |]. split; [reflexivity | exact Hid].
Qed.

(** X2. When [int] returns on every id that passes [isdigit], [next_id]
    returns: 1 if no id passes [isdigit], one more than the largest of the
    values [int] gives otherwise. *)
Lemma next_id_when_int_returns (s : State) :
  (forall id_str, In id_str (xpath_all_id (element s)) ->
                  Py.isdigit id_str = true -> exists v, Py.int id_str = inr v) ->
  exists vs,
    (forall v, In v vs <->
       exists id_str, In id_str (xpath_all_id (element s)) /\
                      Py.isdigit id_str = true /\ Py.int id_str = inr v) /\
    next_id s = Returns (match vs with
                         | [] => 1
                         | x :: r => fold_left Z.max r x + 1
                         end)%Z s.
Proof.
  intros Hint. destruct (used_ids_of_returns _ Hint) as [vs Hvs].
  exists vs. split.
  - intros v. split.
    + intros Hin. destruct (used_ids_of_complete _ _ Hvs v Hin) as [i [Hi1 [Hi2 Hi3]]].
      exists i. auto.
    + intros [i [Hi1 [Hi2 Hi3]]].
      destruct (used_ids_of_sound _ _ Hvs i Hi1 Hi2) as [w [Hw Hin]].
      congruence.
  - rewrite next_id_unfold, Hvs. destruct vs; reflexivity.
Qed.

(** X1. A value [next_id] returns is at least 1. *)
Lemma next_id_positive (s s' : State) (n : Z) :
  next_id s = Returns n s' -> (1 <= n)%Z.
Proof.
  rewrite next_id_unfold.
  destruct (used_ids_of (xpath_all_id (element s))) as [e | [| x r]] eqn:E;
    intros H; inversion H; subst.
  - lia.
  - pose proof (used_ids_of_nonneg _ _ E x (or_introl eq_refl)).
    pose proof (fold_max_ge_init r x). lia.
Qed.

Lemma xpath_append_child (e c : Element) :
  xpath_all_id (append_child e c) = xpath_all_id e ++ xpath_all_id c.
Proof.
  destruct e as [tag attrs children]. simpl.
  rewrite flat_map_app. simpl. rewrite app_nil_r, app_assoc. reflexivity.
Qed.

Lemma used_ids_of_app (l1 l2 : list string) :
  used_ids_of (l1 ++ l2) =
  match used_ids_of l1 with
  | inl e => inl e
  | inr v1 =>
      match used_ids_of l2 with
      | inl e => inl e
      | inr v2 => inr (v1 ++ v2)
      end
  end.
Proof.
  induction l1 as [| a r IH]; simpl.
  - destruct (used_ids_of l2); reflexivity.
  - destruct (Py.isdigit a); [| exact IH].
    destruct (Py.int a) as [e | v]; [reflexivity |].
    rewrite IH. destruct (used_ids_of r) as [e | v1]; [reflexivity |].
    destruct (used_ids_of l2); reflexivity.
Qed.

(** X4. [next_id] keeps no account of the values it has handed out: only
    an id written into the tree moves it. After a new last child with the decimal
    id of value [v] is written, [next_id] goes from [n] to the larger of [n]
    and [v + 1]. *)
Lemma next_id_after_append (s s' : State) (n v : Z) (tag id_str : string) :
  next_id s = Returns n s' ->
  Py.int id_str = inr v ->
  next_id (set_element (append_child (element s) (Elem tag [bare "id" id_str] [])) s) =
  Returns (Z.max n (v + 1))
    (set_element (append_child (element s) (Elem tag [bare "id" id_str] [])) s).
Proof.
  intros Hn Hv. rewrite next_id_unfold in Hn. rewrite next_id_unfold. simpl.
  rewrite xpath_append_child, used_ids_of_app. simpl.
  assert (Hd : Py.isdigit id_str = true).
  { apply isdecimal_isdigit. apply int_returns_iff_isdecimal. eauto. }
  rewrite Hd, Hv.
  destruct (used_ids_of (xpath_all_id (element s))) as [e | vs] eqn:E;
    [discriminate |].
  pose proof (int_nonneg id_str v Hv) as Hv0.
  destruct vs as [| x r]; inversion Hn; subst; simpl.
  - f_equal. lia.
  - rewrite fold_left_app. simpl. f_equal. lia.
Qed.

Example next_id_3_7_x_1 :
  next_id (loaded footer_3_7_x_1) = Returns 8%Z (loaded footer_3_7_x_1).
Proof. reflexivity. Qed.

Example next_id_no_id :
  next_id (loaded footer_no_id) = Returns 1%Z (loaded footer_no_id).
Proof. reflexivity. Qed.

(** C4. On the footer whose ids are 3, 7, U+00B2 and 1, the id U+00B2 passes
    the [isdigit] filter although it is no decimal integer, [int] raises on
    it, and [next_id] raises [ValueError] instead of leaving the id out and
    returning 8. *)
Theorem next_id_raises_on_superscript_two :
  xpath_all_id footer_3_7_sup2_1 = ["3"; "7"; superscript_two; "1"]%string /\
  Py.isdigit superscript_two = true /\
  Py.int superscript_two = inl ValueError /\
  next_id (loaded footer_3_7_sup2_1) = Raises ValueError (loaded footer_3_7_sup2_1).
Proof. repeat split. Qed.


(** C6. [next_id] changes nothing: whether it returns or raises, it ends in
    the state it started from (XML, relationships, cache slot, object store
    and call record), so a second access gives the same outcome; and its
    outcome is computed from the element the part holds at the time of the
    access, whatever the rest of the state. *)
Theorem next_id_is_pure (s : State) :
  final (next_id s) = s /\
  next_id (final (next_id s)) = next_id s /\
  forall (e : Element) (s2 : State),
    value (next_id (set_element e s2)) = value (next_id (set_element e s)).
Proof.
  split; [apply next_id_final |].
  split; [rewrite next_id_final; reflexivity |].
  intros e s2. rewrite !next_id_unfold. simpl.
  destruct (used_ids_of (xpath_all_id e)) as [e' | [| x r]]; reflexivity.
Qed.

(** C10. With the id 0 [next_id] returns 1, with the id 007 it returns 8;
    with the ids 0 and U+00B9 the digit test accepts both, [int] raises on
    the second and [next_id] returns no value at all. *)
Theorem next_id_zero_and_superscript_one :
  next_id (loaded footer_0) = Returns 1%Z (loaded footer_0) /\
  next_id (loaded footer_007) = Returns 8%Z (loaded footer_007) /\
  Py.isdigit superscript_one = true /\
  next_id (loaded footer_0_sup1) = Raises ValueError (loaded footer_0_sup1).
Proof. repeat split. Qed.

(** ** Relationship lists *)

Lemma of_type_refl (T : RT) (p : ref) : of_type T (mkRel T p) = true.
Proof. unfold of_type, RT_eqb. simpl. destruct (RT_eq_dec T T); congruence. Qed.

Lemma of_type_true (T : RT) (r : Relationship) :
  of_type T r = true -> reltype r = T.
Proof. unfold of_type, RT_eqb. destruct (RT_eq_dec (reltype r) T); congruence. Qed.

Lemma of_type_other (T U : RT) (p : ref) : T <> U -> of_type U (mkRel T p) = false.
Proof. unfold of_type, RT_eqb. simpl. destruct (RT_eq_dec T U); congruence. Qed.

Lemma find_app_found {A} (f : A -> bool) (l l' : list A) (x : A) :
  find f l = Some x -> find f (l ++ l') = Some x.
Proof.
  induction l as [| y r IH]; simpl; [discriminate |].
  destruct (f y); auto.
Qed.

Lemma find_app_missing {A} (f : A -> bool) (l l' : list A) :
  find f l = None -> find f (l ++ l') = find f l'.
Proof.
  induction l as [| y r IH]; simpl; [reflexivity |].
  destruct (f y); [discriminate | auto].
Qed.

Lemma find_none_filter {A} (f : A -> bool) (l : list A) :
  find f l = None <-> filter f l = [].
Proof.
  induction l as [| y r IH]; simpl; [tauto |].
  destruct (f y); [split; discriminate | assumption].
Qed.

Lemma count_rels_zero_find (T : RT) (s : State) :
  count_rels T s = 0%nat <-> find (of_type T) (rels s) = None.
Proof.
  unfold count_rels. rewrite find_none_filter.
  destruct (filter (of_type T) (rels s)); simpl; split; congruence.
Qed.

Lemma count_after_edge (T U : RT) (p : ref) (l : list Relationship) :
  length (filter (of_type U) (l ++ [mkRel T p])) =
  (length (filter (of_type U) l) + (if RT_eq_dec T U then 1 else 0))%nat.
Proof.
  rewrite filter_app, length_app. simpl.
  destruct (RT_eq_dec T U) as [-> | Hne].
  - rewrite of_type_refl. reflexivity.
  - rewrite (of_type_other _ _ p Hne). reflexivity.
Qed.

Lemma nth_error_last {A} (l : list A) (x : A) : nth_error (l ++ [x]) (length l) = Some x.
Proof. induction l; simpl; auto. Qed.

(** ** The accessors *)

(** What an access does, case by case: a filled slot answers for
    [numbering_part]; otherwise the look-up is made, and either finds the
    first relationship of the type or misses, in which case the part is
    built and related. *)
Lemma access_unfold (a : Accessor) (s : State) :
  access a s =
  match (match a with The_numbering_part => lazy_numbering_part s | _ => None end) with
  | Some p => Returns p s
  | None =>
      match find (of_type (reltype_of a)) (rels s) with
      | Some r =>
          Returns (target_part r) (remember a (target_part r) (looked_up (reltype_of a) s))
      | None =>
          Returns (length (objects s))
            (remember a (length (objects s)) (created (reltype_of a) (default_part a) s))
      end
  end.
Proof.
  destruct a; simpl;
    unfold _styles_part, numbering_part, _settings_part, lazyproperty, try_except,
      part_related_by, StylesPart_default, NumberingPart_new, SettingsPart_default,
      relate_to, new_object, record_call, bind, ret; simpl.
  - destruct (find (of_type STYLES) (rels s)); reflexivity.
  - destruct (lazy_numbering_part s); [reflexivity |].
    destruct (find (of_type NUMBERING) (rels s)); reflexivity.
  - destruct (find (of_type SETTINGS) (rels s)); reflexivity.
Qed.

Lemma rels_remember (a : Accessor) (p : ref) (s : State) :
  rels (remember a p s) = rels s.
Proof. destruct a; reflexivity. Qed.

Lemma objects_remember (a : Accessor) (p : ref) (s : State) :
  objects (remember a p s) = objects s.
Proof. destruct a; reflexivity. Qed.

Lemma calls_remember (a : Accessor) (p : ref) (s : State) :
  calls (remember a p s) = calls s.
Proof. destruct a; reflexivity. Qed.

Lemma cache_sound_empty (s : State) :
  cache_sound s -> find (of_type NUMBERING) (rels s) = None ->
  lazy_numbering_part s = None.
Proof.
  intros Hs Hf. destruct (lazy_numbering_part s) as [p |] eqn:E; [| reflexivity].
  exfalso. apply Hs in E. apply find_none_filter in Hf.
  assert (Hin : In (mkRel NUMBERING p) (filter (of_type NUMBERING) (rels s))).
  { apply filter_In. split; [assumption | apply of_type_refl]. }
  rewrite Hf in Hin. contradiction.
Qed.

(** After any access that returned [p], a repeat access returns [p]: from
    the slot for [numbering_part], by one more look-up for the other two. *)
Lemma access_again (a : Accessor) (s s1 : State) (p : ref) :
  access a s = Returns p s1 ->
  access a s1 =
  Returns p (match a with
             | The_numbering_part => s1
             | _ => looked_up (reltype_of a) s1
             end).
Proof.
  rewrite access_unfold. intros H. rewrite access_unfold.
  destruct a; simpl in H |- *.
  - destruct (find (of_type STYLES) (rels s)) as [r |] eqn:Hf;
      inversion H; subst; simpl.
    + rewrite Hf. reflexivity.
    + rewrite (find_app_missing _ _ _ Hf). simpl. reflexivity.
  - destruct (lazy_numbering_part s) as [q |] eqn:Hc.
    + inversion H. subst. rewrite Hc. reflexivity.
    + destruct (find (of_type NUMBERING) (rels s)) as [r |] eqn:Hf;
        inversion H; subst; reflexivity.
  - destruct (find (of_type SETTINGS) (rels s)) as [r |] eqn:Hf;
      inversion H; subst; simpl.
    + rewrite Hf. reflexivity.
    + rewrite (find_app_missing _ _ _ Hf). simpl. reflexivity.
Qed.

Lemma known_none (a : Accessor) (s : State) :
  known a s = None ->
  (match a with The_numbering_part => lazy_numbering_part s | _ => None end) = None /\
  find (of_type (reltype_of a)) (rels s) = None.
Proof.
  unfold known. destruct a; simpl;
    try (destruct (lazy_numbering_part s); [discriminate |]);
    destruct (find _ (rels s)); simpl; intros H; try discriminate; auto.
Qed.

Lemma access_miss (a : Accessor) (s : State) :
  known a s = None ->
  access a s =
  Returns (length (objects s))
    (remember a (length (objects s)) (created (reltype_of a) (default_part a) s)).
Proof.
  intros H. apply known_none in H. destruct H as [Hc Hf].
  rewrite access_unfold, Hc, Hf. reflexivity.
Qed.

Lemma access_hit (a : Accessor) (s : State) (q : ref) :
  known a s = Some q ->
  exists s', access a s = Returns q s' /\ rels s' = rels s /\ objects s' = objects s.
Proof.
  unfold known. rewrite access_unfold. intros H.
  destruct a; simpl in *.
  - destruct (find (of_type STYLES) (rels s)) as [r |]; inversion H; subst.
    eexists. split; [reflexivity | split; reflexivity].
  - destruct (lazy_numbering_part s) as [c |].
    + inversion H. subst. eexists. split; [reflexivity | split; reflexivity].
    + destruct (find (of_type NUMBERING) (rels s)) as [r |]; inversion H; subst.
      eexists. split; [reflexivity | split; reflexivity].
  - destruct (find (of_type SETTINGS) (rels s)) as [r |]; inversion H; subst.
    eexists. split; [reflexivity | split; reflexivity].
Qed.

Lemma part_related_by_unfold (T : RT) (s : State) :
  part_related_by T s =
  match find (of_type T) (rels s) with
  | Some r => Returns (target_part r) (looked_up T s)
  | None => Raises KeyError (looked_up T s)
  end.
Proof. reflexivity. Qed.

(** C1. From a part that has no relationship of the accessor's type (and
    whose cache slot is sound), the first access builds a new default part
    and adds one edge of that type to it, the last of the list; the second
    access returns the same part and leaves the relationships as they are;
    so there is exactly one relationship of the type after each access. *)
Theorem access_twice_creates_one (a : Accessor) (s : State) :
  cache_sound s ->
  count_rels (reltype_of a) s = 0%nat ->
  exists p s1 s2,
    access a s = Returns p s1 /\
    access a s1 = Returns p s2 /\
    p = length (objects s) /\
    nth_error (objects s1) p = Some (default_part a) /\
    rels s1 = rels s ++ [mkRel (reltype_of a) p] /\
    rels s2 = rels s1 /\
    count_rels (reltype_of a) s1 = 1%nat /\
    count_rels (reltype_of a) s2 = 1%nat.
Proof.
  intros Hsound Hzero.
  assert (Hf : find (of_type (reltype_of a)) (rels s) = None)
    by (apply count_rels_zero_find; assumption).
  assert (Hk : known a s = None).
  { unfold known. rewrite Hf. destruct a; simpl; try reflexivity.
    rewrite (@cache_sound_empty s Hsound Hf). reflexivity. }
  pose proof (@access_miss a s Hk) as H1.
  pose proof (@access_again a _ _ _ H1) as H2.
  set (p := length (objects s)) in *.
  set (s1 := remember a p (created (reltype_of a) (default_part a) s)) in *.
  assert (Hr1 : rels s1 = rels s ++ [mkRel (reltype_of a) p])
    by (unfold s1; rewrite rels_remember; reflexivity).
  assert (Hc1 : count_rels (reltype_of a) s1 = 1%nat).
  { unfold count_rels in *. rewrite Hr1, count_after_edge, Hzero.
    destruct (RT_eq_dec (reltype_of a) (reltype_of a)); [reflexivity | congruence]. }
  exists p, s1. eexists. split; [exact H1 |]. split; [exact H2 |].
  split; [reflexivity |]. split.
  { unfold s1. rewrite objects_remember. simpl. apply nth_error_last. }
  split; [exact Hr1 |].
  assert (Hr2 : rels (match a with
                      | The_numbering_part => s1
                      | _ => looked_up (reltype_of a) s1
                      end) = rels s1) by (destruct a; reflexivity).
  split; [exact Hr2 |]. split; [exact Hc1 |].
  unfold count_rels in *. rewrite Hr2. exact Hc1.
Qed.

(** An access that returned leaves its part settled. *)
Lemma access_settles (a : Accessor) (s s1 : State) (p : ref) :
  access a s = Returns p s1 -> settled a p s1.
Proof.
  rewrite access_unfold. intros H. destruct a; simpl in H |- *.
  - destruct (find (of_type STYLES) (rels s)) as [r |] eqn:Hf;
      inversion H; subst; simpl.
    + exists r. auto.
    + rewrite (find_app_missing _ _ _ Hf). simpl. eexists. split; reflexivity.
  - destruct (lazy_numbering_part s) as [c |] eqn:Hc.
    + inversion H. subst. exact Hc.
    + destruct (find (of_type NUMBERING) (rels s)); inversion H; reflexivity.
  - destruct (find (of_type SETTINGS) (rels s)) as [r |] eqn:Hf;
      inversion H; subst; simpl.
    + exists r. auto.
    + rewrite (find_app_missing _ _ _ Hf). simpl. eexists. split; reflexivity.
Qed.

(** With its part settled, an accessor returns it: from the slot for
    [numbering_part], by one look-up for the other two. *)
Lemma settled_access (a : Accessor) (s : State) (p : ref) :
  settled a p s ->
  access a s =
  Returns p (match a with
             | The_numbering_part => s
             | The_styles_part => looked_up STYLES s
             | The_settings_part => looked_up SETTINGS s
             end).
Proof.
  rewrite access_unfold. destruct a; simpl.
  - intros [r [-> <-]]. reflexivity.
  - intros ->. reflexivity.
  - intros [r [-> <-]]. reflexivity.
Qed.

(** Nothing an accessor does unsettles another accessor, or itself. *)
Lemma access_keeps_settled (a b : Accessor) (s : State) (p : ref) :
  settled a p s -> settled a p (final (access b s)).
Proof.
  intros Ha. destruct (known b s) as [q |] eqn:Hk.
  - assert (Hsame : rels (final (access b s)) = rels s /\
                    (lazy_numbering_part s <> None ->
                     lazy_numbering_part (final (access b s)) = lazy_numbering_part s)).
    { rewrite access_unfold. unfold known in Hk. destruct b; simpl in *.
      - destruct (find (of_type STYLES) (rels s)); simpl in *;
          [split; [reflexivity | intros _; reflexivity] | discriminate].
      - destruct (lazy_numbering_part s) as [c |] eqn:Hc; simpl;
          [split; [reflexivity | intros _; exact Hc] |].
        destruct (find (of_type NUMBERING) (rels s)); simpl in *;
          [split; [reflexivity | intros Hn; congruence] | discriminate].
      - destruct (find (of_type SETTINGS) (rels s)); simpl in *;
          [split; [reflexivity | intros _; reflexivity] | discriminate]. }
    destruct Hsame as [Hr Hl]. destruct a; simpl in *.
    + rewrite Hr. exact Ha.
    + rewrite Hl; [exact Ha | congruence].
    + rewrite Hr. exact Ha.
  - rewrite (@access_miss b s Hk). simpl.
    destruct (@known_none b s Hk) as [Hc _].
    destruct a; simpl in *.
    + rewrite rels_remember. simpl. destruct Ha as [r [Hf Hp]].
      exists r. split; [apply find_app_found; exact Hf | exact Hp].
    + destruct b; simpl in *; try exact Ha. congruence.
    + rewrite rels_remember. simpl. destruct Ha as [r [Hf Hp]].
      exists r. split; [apply find_app_found; exact Hf | exact Hp].
Qed.

(** C3. Every accessor returns a part in every state. The look-up raises
    [KeyError] exactly when no relationship of the type exists; with nothing
    cached either, the accessor then returns a newly built default part,
    now related; otherwise it returns the part it already had and leaves
    relationships and objects alone. *)
Theorem access_never_raises (a : Accessor) (s : State) :
  exists p s',
    access a s = Returns p s' /\
    match known a s with
    | Some q => p = q /\ rels s' = rels s /\ objects s' = objects s
    | None =>
        part_related_by (reltype_of a) s = Raises KeyError (looked_up (reltype_of a) s) /\
        p = length (objects s) /\
        rels s' = rels s ++ [mkRel (reltype_of a) p] /\
        objects s' = objects s ++ [default_part a]
    end.
Proof.
  destruct (known a s) as [q |] eqn:Hk.
  - destruct (@access_hit a s _ Hk) as [s' [H1 [H2 H3]]].
    exists q, s'. auto.
  - rewrite (@access_miss a s Hk).
    destruct (@known_none a s Hk) as [_ Hf].
    eexists. eexists. split; [reflexivity |].
    rewrite part_related_by_unfold, Hf, rels_remember, objects_remember.
    repeat split.
Qed.

(** ** Effects of the operations *)

(** An access leaves the relationships as they are, or it has just missed
    the look-up and appends the one new edge. *)
Lemma access_effect (a : Accessor) (s : State) :
  rels (final (access a s)) = rels s \/
  (find (of_type (reltype_of a)) (rels s) = None /\
   rels (final (access a s)) = rels s ++ [mkRel (reltype_of a) (length (objects s))] /\
   calls (final (access a s)) =
     Call_relate_to (length (objects s)) (reltype_of a) :: Call_factory (reltype_of a)
       :: Call_part_related_by (reltype_of a) :: calls s).
Proof.
  destruct (known a s) as [q |] eqn:Hk.
  - left. destruct (@access_hit a s q Hk) as [s' [H1 [H2 _]]].
    rewrite H1. exact H2.
  - right. destruct (@known_none a s Hk) as [_ Hf].
    rewrite (@access_miss a s Hk). simpl.
    rewrite rels_remember, calls_remember. auto.
Qed.

Lemma final_bind {A B} (m : M A) (k : A -> M B) (s : State) :
  (forall x s', final (k x s') = s') ->
  final (bind m k s) = final (m s).
Proof.
  intros Hk. unfold bind. destruct (m s) as [x s' | e s']; simpl; auto.
Qed.

Lemma final_discard {A} (m : M A) (s : State) : final (discard m s) = final (m s).
Proof. unfold discard. apply final_bind. reflexivity. Qed.

Lemma final_getattr_styles (p : ref) (s : State) : final (getattr_styles p s) = s.
Proof.
  unfold getattr_styles. destruct (nth_error (objects s) p) as [[] |]; reflexivity.
Qed.

Lemma final_getattr_settings (p : ref) (s : State) : final (getattr_settings p s) = s.
Proof.
  unfold getattr_settings. destruct (nth_error (objects s) p) as [[] |]; reflexivity.
Qed.

Lemma final_lift {A} (r : exn + A) (s : State) : final (lift r s) = s.
Proof. destruct r; reflexivity. Qed.

Lemma final_styles (s : State) : final (styles s) = final (access The_styles_part s).
Proof. unfold styles. apply final_bind. apply final_getattr_styles. Qed.

Lemma final_settings (s : State) : final (settings s) = final (access The_settings_part s).
Proof. unfold settings. apply final_bind. apply final_getattr_settings. Qed.

(** Each operation ends in the state that one access, or none, ends in. *)
Lemma exec_final (o : Op) (s : State) :
  final (exec o s) =
  match o with
  | Op_next_id => s
  | Op_numbering_part => final (access The_numbering_part s)
  | Op_settings | Op__settings_part => final (access The_settings_part s)
  | _ => final (access The_styles_part s)
  end.
Proof.
  destruct o; simpl; rewrite final_discard.
  - unfold get_style. rewrite final_bind; [apply final_styles | reflexivity].
  - unfold get_style_id. rewrite final_bind; [apply final_styles |].
    intros. apply final_lift.
  - apply final_styles.
  - apply next_id_final.
  - reflexivity.
  - apply final_settings.
  - reflexivity.
  - reflexivity.
Qed.

Lemma singleton_reltype_of (a : Accessor) : singleton (reltype_of a) = true.
Proof. destruct a; reflexivity. Qed.

Lemma singleton_inv_after_edge (s : State) (T : RT) (p : ref) :
  singleton_inv s ->
  find (of_type T) (rels s) = None ->
  forall U, singleton U = true ->
            (length (filter (of_type U) (rels s ++ [mkRel T p])) <= 1)%nat.
Proof.
  intros Hinv Hf U HU.
  rewrite count_after_edge. destruct (RT_eq_dec T U) as [-> | Hne].
  - apply count_rels_zero_find in Hf. unfold count_rels in Hf. lia.
  - specialize (Hinv U HU). unfold count_rels in Hinv. lia.
Qed.

(** One access keeps the singleton invariant. *)
Lemma access_keeps_singleton_inv (a : Accessor) (s : State) :
  singleton_inv s -> singleton_inv (final (access a s)).
Proof.
  intros Hinv T HT. unfold count_rels.
  destruct (access_effect a s) as [Hsame | [Hf [Hr _]]].
  - rewrite Hsame. apply Hinv. exact HT.
  - rewrite Hr. apply singleton_inv_after_edge; assumption.
Qed.

Lemma exec_singleton_inv (o : Op) (s : State) :
  singleton_inv s -> singleton_inv (final (exec o s)).
Proof.
  intros Hinv. rewrite exec_final.
  destruct o; try (apply access_keeps_singleton_inv; exact Hinv). exact Hinv.
Qed.

(** X5. The singleton invariant holds after any sequence of operations. *)
Lemma after_keeps_singleton_inv (ops : list Op) :
  forall s, singleton_inv s -> singleton_inv (after ops s).
Proof.
  induction ops as [| o r IH]; simpl; intros s Hinv.
  - exact Hinv.
  - apply IH. apply exec_singleton_inv. exact Hinv.
Qed.

(** The cache slot stays sound under every operation. *)
Lemma access_keeps_cache_sound (a : Accessor) (s : State) :
  cache_sound s -> cache_sound (final (access a s)).
Proof.
  intros Hs. rewrite access_unfold.
  destruct a; simpl.
  - destruct (find (of_type STYLES) (rels s)); simpl.
    + exact Hs.
    + intros p Hp. simpl in *. apply in_or_app. left. apply Hs. exact Hp.
  - destruct (lazy_numbering_part s) as [c |] eqn:Hc; simpl; [exact Hs |].
    destruct (find (of_type NUMBERING) (rels s)) as [r |] eqn:Hf; simpl.
    + intros p Hp. simpl in *. inversion Hp. subst.
      destruct (find_some _ _ Hf) as [Hin Ht]. apply of_type_true in Ht.
      destruct r as [T q]. simpl in *. subst. exact Hin.
    + intros p Hp. simpl in *. inversion Hp. subst. apply in_or_app. right.
      left. reflexivity.
  - destruct (find (of_type SETTINGS) (rels s)); simpl.
    + exact Hs.
    + intros p Hp. simpl in *. apply in_or_app. left. apply Hs. exact Hp.
Qed.

Lemma fresh_cache_sound (s : State) :
  lazy_numbering_part s = None -> cache_sound s.
Proof. intros H p Hp. congruence. Qed.

Lemma exec_keeps_cache_sound (o : Op) (s : State) :
  cache_sound s -> cache_sound (final (exec o s)).
Proof.
  intros Hs. rewrite exec_final.
  destruct o; try (apply access_keeps_cache_sound; exact Hs). exact Hs.
Qed.

(** X6. The cache slot of [numbering_part] stays sound under any sequence
    of operations. *)
Lemma after_keeps_cache_sound (ops : list Op) :
  forall s, cache_sound s -> cache_sound (after ops s).
Proof.
  induction ops as [| o r IH]; simpl; intros s Hs.
  - exact Hs.
  - apply IH. apply exec_keeps_cache_sound. exact Hs.
Qed.

Lemma exec_keeps_settled (a : Accessor) (p : ref) (o : Op) (s : State) :
  settled a p s -> settled a p (final (exec o s)).
Proof.
  intros Hs. rewrite exec_final.
  destruct o; try (apply access_keeps_settled; exact Hs). exact Hs.
Qed.

Lemma after_keeps_settled (a : Accessor) (p : ref) (ops : list Op) :
  forall s, settled a p s -> settled a p (after ops s).
Proof.
  induction ops as [| o r IH]; simpl; intros s Hs.
  - exact Hs.
  - apply IH. apply exec_keeps_settled. exact Hs.
Qed.

(** C2, as the code has it. Only [numbering_part] is memoized: once it has
    returned, every later access, whatever operations of the facade ran in
    between, returns the same part and leaves the whole state, call record
    included, as it was. [_styles_part] and [_settings_part] are plain
    properties: every later access calls [part_related_by] once more, which
    finds the relationship, so it returns the same part, calls neither a
    factory nor [relate_to], and changes nothing but the call record. *)
Theorem repeat_access (a : Accessor) (s s1 : State) (p : ref) (ops : list Op) :
  access a s = Returns p s1 ->
  access a (after ops s1) =
  Returns p (match a with
             | The_numbering_part => after ops s1
             | The_styles_part => looked_up STYLES (after ops s1)
             | The_settings_part => looked_up SETTINGS (after ops s1)
             end).
Proof.
  intros H. apply settled_access. apply after_keeps_settled.
  apply (access_settles a s s1 p H).
Qed.

(** C7. Every operation of the facade keeps the invariant that each
    singleton relationship type has at most one outbound relationship. An
    operation either leaves the relationships as they are, or appends one
    edge of a singleton type [T], and then no relationship of type [T]
    existed before and the calls it made are, in order, the look-up for [T]
    (which missed), the factory for [T] and [relate_to] for the new part. *)
Theorem exec_keeps_singleton_inv (o : Op) (s : State) :
  singleton_inv s ->
  singleton_inv (final (exec o s)) /\
  (rels (final (exec o s)) = rels s \/
   exists T p,
     singleton T = true /\
     find (of_type T) (rels s) = None /\
     rels (final (exec o s)) = rels s ++ [mkRel T p] /\
     calls (final (exec o s)) =
       Call_relate_to p T :: Call_factory T :: Call_part_related_by T :: calls s).
Proof.
  intros Hinv. split; [apply exec_singleton_inv; exact Hinv |].
  assert (Hacc : forall a,
            rels (final (access a s)) = rels s \/
            exists T p,
              singleton T = true /\
              find (of_type T) (rels s) = None /\
              rels (final (access a s)) = rels s ++ [mkRel T p] /\
              calls (final (access a s)) =
                Call_relate_to p T :: Call_factory T :: Call_part_related_by T :: calls s).
  { intros a. destruct (access_effect a s) as [Hsame | [Hf [Hr Hc]]].
    - left. exact Hsame.
    - right. exists (reltype_of a), (length (objects s)).
      split; [apply singleton_reltype_of |]. auto. }
  rewrite exec_final. destruct o; try apply Hacc.
  left. reflexivity.
Qed.


(** ** Style look-ups *)

Lemma find_first {A} (f : A -> bool) (l : list A) (x : A) :
  find f l = Some x <->
  exists before after,
    l = before ++ x :: after /\ f x = true /\ forall y, In y before -> f y = false.
Proof.
  split.
  - induction l as [| y r IH]; simpl; [discriminate |].
    destruct (f y) eqn:Hy.
    + intros H. inversion H. subst. exists [], r. simpl. tauto.
    + intros H. destruct (IH H) as [b [a [-> [Hx Hb]]]].
      exists (y :: b), a. simpl. split; [reflexivity |]. split; [exact Hx |].
      intros z [<- | Hz]; auto.
  - intros [b [a [-> [Hx Hb]]]]. induction b as [| y r IH]; simpl.
    + rewrite Hx. reflexivity.
    + rewrite (Hb y (or_introl eq_refl)). apply IH.
      intros z Hz. apply Hb. right. exact Hz.
Qed.

Lemma find_missing {A} (f : A -> bool) (l : list A) :
  find f l = None <-> forall x, In x l -> f x = false.
Proof.
  split.
  - intros H x Hin. exact (find_none f l H x Hin).
  - intros H. destruct (find f l) as [x |] eqn:E; [| reflexivity].
    destruct (find_some _ _ E) as [Hin Hx]. rewrite (H x Hin) in Hx. discriminate.
Qed.

Lemma named_by_false (n : string) (x : Style) :
  named_by n x = false <-> style_id x <> n /\ name x <> n.
Proof.
  unfold named_by. rewrite orb_false_iff, !String.eqb_neq. tauto.
Qed.

Lemma names_nothing_find (sty : Styles) (n : string) :
  names_nothing sty n <-> find (named_by n) (defined sty) = None.
Proof.
  rewrite find_missing. unfold names_nothing.
  split; intros H x Hin; apply named_by_false; auto.
Qed.

Lemma resolves_to_find (sty : Styles) (n : string) (st : Style) :
  resolves_to sty n st <-> find (named_by n) (defined sty) = Some st.
Proof. unfold resolves_to. rewrite find_first. tauto. Qed.

(** A name resolves to a style or names nothing. *)
Lemma resolves_or_names_nothing (sty : Styles) (n : string) :
  (exists st, resolves_to sty n st) \/ names_nothing sty n.
Proof.
  destruct (find (named_by n) (defined sty)) as [st |] eqn:E.
  - left. exists st. apply resolves_to_find. exact E.
  - right. apply names_nothing_find. exact E.
Qed.

Lemma has_id_and_type_true (i : string) (t : StyleType) (st : Style) :
  has_id_and_type i t st = true <-> style_id st = i /\ type st = t.
Proof.
  unfold has_id_and_type. rewrite andb_true_iff, String.eqb_eq.
  destruct (StyleType_eq_dec (type st) t); intuition congruence.
Qed.

Lemma get_by_id_defined (sty : Styles) (i : string) (t : StyleType) :
  defines sty i t ->
  In (get_by_id sty (Some i) t) (defined sty) /\
  style_id (get_by_id sty (Some i) t) = i /\
  type (get_by_id sty (Some i) t) = t.
Proof.
  intros [st [Hin [Hi Ht]]]. unfold get_by_id.
  destruct (find (has_id_and_type i t) (defined sty)) as [x |] eqn:E.
  - destruct (find_some _ _ E) as [Hx Hm]. apply has_id_and_type_true in Hm. tauto.
  - exfalso. pose proof (find_none _ _ E st Hin) as Hn.
    assert (Hy : has_id_and_type i t st = true) by (apply has_id_and_type_true; auto).
    congruence.
Qed.

Lemma get_by_id_undefined (sty : Styles) (i : string) (t : StyleType) :
  ~ defines sty i t -> get_by_id sty (Some i) t = default sty t.
Proof.
  intros Hn. unfold get_by_id.
  destruct (find (has_id_and_type i t) (defined sty)) as [x |] eqn:E; [| reflexivity].
  exfalso. apply Hn. destruct (find_some _ _ E) as [Hx Hm].
  apply has_id_and_type_true in Hm. exists x. tauto.
Qed.

(** ** [styles] under the kind invariant *)

Lemma kinds_ok_rel (s : State) (r : Relationship) :
  kinds_ok s -> In r (rels s) ->
  exists p, nth_error (objects s) (target_part r) = Some p /\
            kind_matches (reltype r) p = true.
Proof.
  unfold kinds_ok. rewrite forallb_forall. intros H Hin.
  specialize (H r Hin). unfold rel_kind_ok in H.
  destruct (nth_error (objects s) (target_part r)) as [p |]; [eauto | discriminate].
Qed.

Lemma rel_kind_ok_grows (objs : list Part) (p : Part) (r : Relationship) :
  rel_kind_ok objs r = true -> rel_kind_ok (objs ++ [p]) r = true.
Proof.
  unfold rel_kind_ok.
  destruct (nth_error objs (target_part r)) as [q |] eqn:E; [| discriminate].
  assert (Hlt : (target_part r < length objs)%nat)
    by (apply nth_error_Some; congruence).
  rewrite nth_error_app1, E by exact Hlt. auto.
Qed.

Lemma kind_matches_default (a : Accessor) :
  kind_matches (reltype_of a) (default_part a) = true.
Proof. destruct a; reflexivity. Qed.

(** The kind invariant is kept by every access: a part built by a factory
    is of the class its relationship type calls for. *)
Lemma access_keeps_kinds_ok (a : Accessor) (s : State) :
  kinds_ok s -> kinds_ok (final (access a s)).
Proof.
  intros Hk. destruct (known a s) as [q |] eqn:Hq.
  - destruct (@access_hit a s q Hq) as [s' [H1 [H2 H3]]].
    rewrite H1. simpl. unfold kinds_ok. rewrite H2, H3. exact Hk.
  - rewrite (@access_miss a s Hq). simpl.
    unfold kinds_ok in *. rewrite rels_remember, objects_remember. simpl.
    rewrite forallb_app. apply andb_true_intro. split.
    + rewrite forallb_forall in *. intros r Hin. apply rel_kind_ok_grows. auto.
    + simpl. unfold rel_kind_ok. simpl. rewrite nth_error_last.
      rewrite kind_matches_default. reflexivity.
Qed.

(** X7. Every operation keeps the kind invariant: each accessor builds its
    part with the factory of the class its relationship type calls for. *)
Lemma exec_keeps_kinds_ok (o : Op) (s : State) :
  kinds_ok s -> kinds_ok (final (exec o s)).
Proof.
  intros Hs. rewrite exec_final.
  destruct o; try (apply access_keeps_kinds_ok; exact Hs). exact Hs.
Qed.

Lemma _styles_part_unfold (s : State) :
  _styles_part s =
  match find (of_type STYLES) (rels s) with
  | Some r => Returns (target_part r) (looked_up STYLES s)
  | None => Returns (length (objects s)) (created STYLES (StylesPart default_styles) s)
  end.
Proof.
  unfold _styles_part, try_except, part_related_by, StylesPart_default, relate_to,
    new_object, record_call, bind, ret; simpl.
  destruct (find (of_type STYLES) (rels s)); reflexivity.
Qed.

(** Under the kind invariant [styles] returns: the styles of the related
    styles part when there is one, of a newly built default part when
    there is none. *)
Lemma styles_returns (s : State) :
  kinds_ok s ->
  exists sty,
    styles s = Returns sty (final (_styles_part s)) /\
    match find (of_type STYLES) (rels s) with
    | Some r => nth_error (objects s) (target_part r) = Some (StylesPart sty)
    | None => sty = default_styles
    end.
Proof.
  intros Hk. unfold styles, bind. rewrite _styles_part_unfold.
  destruct (find (of_type STYLES) (rels s)) as [r |] eqn:Hf; simpl.
  - destruct (find_some _ _ Hf) as [Hin Ht]. apply of_type_true in Ht.
    destruct (kinds_ok_rel s r Hk Hin) as [p [Hp Hm]].
    rewrite Ht in Hm. unfold getattr_styles. simpl. rewrite Hp.
    destruct p; simpl in Hm; try discriminate. eauto.
  - unfold getattr_styles. simpl. rewrite nth_error_last. eauto.
Qed.

Lemma get_style_unfold (sid : option string) (t : StyleType) (s : State)
    (sty : Styles) (s' : State) :
  styles s = Returns sty s' ->
  get_style sid t s = Returns (get_by_id sty sid t) s'.
Proof. intros H. unfold get_style, bind. rewrite H. reflexivity. Qed.



(** C9. Under the kind invariant [get_style] returns a style for every
    identifier and type, taken from the styles of the styles part of this
    footer (the part related by STYLES, or the default part it builds when
    there is none): a defined style with that identifier and that type when
    one exists; the default style of the type when the identifier is absent
    or no defined style has that identifier and that type. *)
Theorem get_style_never_fails (sid : option string) (t : StyleType) (s : State) :
  kinds_ok s ->
  exists sty s' st,
    match find (of_type STYLES) (rels s) with
    | Some r => nth_error (objects s) (target_part r) = Some (StylesPart sty)
    | None => sty = default_styles
    end /\
    s' = final (_styles_part s) /\
    styles s = Returns sty s' /\
    get_style sid t s = Returns st s' /\
    (forall i, sid = Some i -> defines sty i t ->
       In st (defined sty) /\ style_id st = i /\ type st = t) /\
    (sid = None -> st = default sty t) /\
    (forall i, sid = Some i -> ~ defines sty i t -> st = default sty t).
Proof.
  intros Hk. destruct (styles_returns s Hk) as [sty [Hs Htie]].
  exists sty. eexists. exists (get_by_id sty sid t).
  split; [exact Htie |]. split; [reflexivity |].
  split; [exact Hs |]. split; [apply get_style_unfold; exact Hs |].
  split; [| split].
  - intros i -> Hd. apply get_by_id_defined. exact Hd.
  - intros ->. reflexivity.
  - intros i -> Hn. apply get_by_id_undefined. exact Hn.
Qed.

(** ** What [next_id] depends on *)

Lemma filter_filter {A} (f : A -> bool) (l : list A) :
  filter f (filter f l) = filter f l.
Proof.
  induction l as [| x r IH]; simpl; [reflexivity |].
  destruct (f x) eqn:E; simpl; [rewrite E, IH; reflexivity | exact IH].
Qed.

Lemma xpath_skeleton : forall e, xpath_all_id (skeleton e) = xpath_all_id e.
Proof.
  fix IH 1. intros [tag attrs children]. simpl. f_equal.
  - unfold own_ids. rewrite filter_filter. reflexivity.
  - induction children as [| c r IHr]; simpl; [reflexivity |].
    rewrite IH, IHr. reflexivity.
Qed.

Lemma next_id_value (s : State) :
  value (next_id s) =
  match used_ids_of (xpath_all_id (element s)) with
  | inl e => inl e
  | inr [] => inr 1%Z
  | inr (x :: r) => inr (fold_left Z.max r x + 1)%Z
  end.
Proof.
  rewrite next_id_unfold.
  destruct (used_ids_of (xpath_all_id (element s))) as [e | [| x r]]; reflexivity.
Qed.

(** X8. The outcome of [next_id] is settled by the skeleton of the tree:
    two parts whose trees differ only in element names, in attributes other
    than the bare [id] and in attributes in a namespace (such as [w:id]) get
    the same value or the same exception. *)
Lemma next_id_skeleton (s1 s2 : State) :
  skeleton (element s1) = skeleton (element s2) ->
  value (next_id s1) = value (next_id s2).
Proof.
  intros H. rewrite !next_id_value.
  rewrite <- (xpath_skeleton (element s1)), <- (xpath_skeleton (element s2)), H.
  reflexivity.
Qed.

Lemma used_ids_of_error (l : list string) (e : exn) :
  used_ids_of l = inl e -> e = ValueError.
Proof. intros H. apply (used_ids_of_raises l e H). Qed.

(** The comprehension on two orders of the same ids: both raise, or both
    give the same values up to order. *)
Lemma used_ids_of_perm (l1 l2 : list string) :
  Permutation l1 l2 ->
  match used_ids_of l1, used_ids_of l2 with
  | inr v1, inr v2 => Permutation v1 v2
  | inl e1, inl e2 => e1 = e2
  | _, _ => False
  end.
Proof.
  intros HP. induction HP as [| x l l' HP IH | x y l | l l' l'' HP1 IH1 HP2 IH2].
  - simpl. constructor.
  - simpl. destruct (Py.isdigit x); [| exact IH].
    destruct (Py.int x) as [e | v]; [reflexivity |].
    destruct (used_ids_of l) as [e1 | v1], (used_ids_of l') as [e2 | v2];
      try contradiction; [exact IH | constructor; exact IH].
  - simpl.
    destruct (Py.isdigit y) eqn:Hy, (Py.isdigit x) eqn:Hx;
      try (destruct (Py.int y) as [ey | vy] eqn:Ey);
      try (destruct (Py.int x) as [ex | vx] eqn:Ex);
      try (destruct (used_ids_of l) as [e | v]);
      first [ reflexivity
            | apply Permutation_refl
            | apply perm_swap
            | rewrite (int_raises_ValueError y ey Ey), (int_raises_ValueError x ex Ex);
              reflexivity ].
  - destruct (used_ids_of l) as [e1 | v1], (used_ids_of l') as [e2 | v2],
      (used_ids_of l'') as [e3 | v3]; try contradiction.
    + congruence.
    + eapply Permutation_trans; eassumption.
Qed.

Lemma fold_max_in (l : list Z) : forall x, In (fold_left Z.max l x) (x :: l).
Proof.
  induction l as [| y r IH]; intros x; simpl.
  - left. reflexivity.
  - destruct (IH (Z.max x y)) as [H | H].
    + rewrite <- H.
      destruct (Z.max_spec x y) as [[_ E] | [_ E]]; rewrite E; simpl; auto.
    + right. right. exact H.
Qed.

Lemma fold_max_perm (x y : Z) (r r' : list Z) :
  Permutation (x :: r) (y :: r') -> fold_left Z.max r x = fold_left Z.max r' y.
Proof.
  intros HP.
  assert (Hle : forall a l b l', Permutation (a :: l) (b :: l') ->
                  (fold_left Z.max l a <= fold_left Z.max l' b)%Z).
  { intros a l b l' H.
    pose proof (fold_max_in l a) as Hin.
    apply (Permutation_in _ H) in Hin. destruct Hin as [<- | Hin].
    - apply fold_max_ge_init.
    - apply fold_max_ge_all. exact Hin. }
  pose proof (Hle _ _ _ _ HP). pose proof (Hle _ _ _ _ (Permutation_sym HP)). lia.
Qed.

(** X9. The outcome of [next_id] does not depend on where in the document
    the ids stand: two parts whose trees carry the same bare-id values, in
    any order, get the same value or the same exception. *)
Lemma next_id_any_order (s1 s2 : State) :
  Permutation (xpath_all_id (element s1)) (xpath_all_id (element s2)) ->
  value (next_id s1) = value (next_id s2).
Proof.
  intros HP. rewrite !next_id_value.
  pose proof (used_ids_of_perm _ _ HP) as H.
  destruct (used_ids_of (xpath_all_id (element s1))) as [e1 | v1],
    (used_ids_of (xpath_all_id (element s2))) as [e2 | v2]; try contradiction.
  - rewrite H. reflexivity.
  - destruct v1 as [| x r], v2 as [| y r']; try reflexivity.
    + apply Permutation_nil in H. discriminate H.
    + apply Permutation_sym, Permutation_nil in H. discriminate H.
    + rewrite (fold_max_perm x y r r' H). reflexivity.
Qed.

Lemma fold_max_nonneg_app (vs ws : list Z) :
  (forall v, In v vs -> (0 <= v)%Z) ->
  (forall v, In v ws -> (0 <= v)%Z) ->
  (match vs with [] => 1 | x :: r => fold_left Z.max r x + 1 end <=
   match vs ++ ws with [] => 1 | x :: r => fold_left Z.max r x + 1 end)%Z.
Proof.
  intros Hv Hw. destruct vs as [| x r]; simpl.
  - destruct ws as [| y u]; [lia |].
    pose proof (Hw y (or_introl eq_refl)). pose proof (fold_max_ge_init u y). lia.
  - rewrite fold_left_app. pose proof (fold_max_ge_init ws (fold_left Z.max r x)). lia.
Qed.

(** X10. Writing more content under the root never lowers [next_id]: if it
    raised before, it raises the same exception after; if it returned [n]
    before, it returns some [n' >= n] after, or raises [ValueError], and
    then [int] raises on an id of the new content that passes [isdigit]. *)
Lemma next_id_append_monotone (s : State) (c : Element) :
  match value (next_id s),
        value (next_id (set_element (append_child (element s) c) s)) with
  | inl e, after_append => after_append = inl e
  | inr n, inr n' => (n <= n')%Z
  | inr _, inl e =>
      e = ValueError /\
      exists id_str, In id_str (xpath_all_id c) /\
                     Py.isdigit id_str = true /\ Py.int id_str = inl ValueError
  end.
Proof.
  rewrite !next_id_value. simpl. rewrite xpath_append_child, used_ids_of_app.
  destruct (used_ids_of (xpath_all_id (element s))) as [e | vs] eqn:E1.
  - reflexivity.
  - destruct (used_ids_of (xpath_all_id c)) as [e | ws] eqn:E2.
    + destruct vs; apply (used_ids_of_raises _ _ E2).
    + pose proof (fold_max_nonneg_app vs ws
                    (used_ids_of_nonneg _ _ E1) (used_ids_of_nonneg _ _ E2)) as H.
      destruct vs as [| x r]; simpl in *.
      * destruct ws; exact H.
      * exact H.
Qed.

(** ** What the operations do to the part over time *)

Lemma access_element (a : Accessor) (s : State) :
  element (final (access a s)) = element s.
Proof.
  rewrite access_unfold. destruct a; simpl;
    try (destruct (lazy_numbering_part s)); simpl; try reflexivity;
    destruct (find _ (rels s)); reflexivity.
Qed.

Lemma exec_element (o : Op) (s : State) : element (final (exec o s)) = element s.
Proof.
  rewrite exec_final. destruct o; try apply access_element; reflexivity.
Qed.

Lemma after_element (ops : list Op) :
  forall s, element (after ops s) = element s.
Proof.
  induction ops as [| o r IH]; simpl; intros s; [reflexivity |].
  rewrite IH. apply exec_element.
Qed.

(** X11. No operation of the facade writes the XML of the part: after any
    sequence of operations [next_id] has the outcome it had before. *)
Lemma next_id_unchanged_by_ops (ops : list Op) (s : State) :
  value (next_id (after ops s)) = value (next_id s).
Proof. rewrite !next_id_value, after_element. reflexivity. Qed.

(** One access leaves relationships and objects alone, or adds one of each
    at the end. *)
Lemma access_grows (a : Accessor) (s : State) :
  (rels (final (access a s)) = rels s /\ objects (final (access a s)) = objects s) \/
  (find (of_type (reltype_of a)) (rels s) = None /\
   rels (final (access a s)) = rels s ++ [mkRel (reltype_of a) (length (objects s))] /\
   objects (final (access a s)) = objects s ++ [default_part a]).
Proof.
  destruct (known a s) as [q |] eqn:Hk.
  - left. destruct (@access_hit a s q Hk) as [s' [H1 [H2 H3]]].
    rewrite H1. simpl. auto.
  - right. destruct (@known_none a s Hk) as [_ Hf].
    rewrite (@access_miss a s Hk). simpl.
    rewrite rels_remember, objects_remember. auto.
Qed.

Lemma exec_grows (o : Op) (s : State) :
  (rels (final (exec o s)) = rels s /\ objects (final (exec o s)) = objects s) \/
  exists a,
    find (of_type (reltype_of a)) (rels s) = None /\
    rels (final (exec o s)) = rels s ++ [mkRel (reltype_of a) (length (objects s))] /\
    objects (final (exec o s)) = objects s ++ [default_part a].
Proof.
  rewrite exec_final.
  destruct o;
    try (left; split; reflexivity);
    match goal with
    | |- context [access ?a s] =>
        destruct (access_grows a s) as [H | H]; [left; exact H | right; exists a; exact H]
    end.
Qed.

Lemma count_rels_step (o : Op) (s : State) (T : RT) :
  count_rels T (final (exec o s)) = count_rels T s \/
  (count_rels T s = 0%nat /\ singleton T = true /\
   count_rels T (final (exec o s)) = 1%nat).
Proof.
  destruct (exec_grows o s) as [[Hr _] | [a [Hf [Hr _]]]].
  - left. unfold count_rels. rewrite Hr. reflexivity.
  - unfold count_rels. rewrite Hr, count_after_edge.
    destruct (RT_eq_dec (reltype_of a) T) as [<- | Hne].
    + right. apply count_rels_zero_find in Hf. unfold count_rels in Hf.
      rewrite Hf. split; [reflexivity |]. split; [apply singleton_reltype_of | reflexivity].
    + left. lia.
Qed.

(** X12. Over any sequence of operations the number of relationships of a
    type stays what it was, except that a singleton type with none gets
    exactly one: a type that has relationships never gets another, and no
    relationship of another type is ever added. *)
Lemma count_rels_after (ops : list Op) (T : RT) :
  forall s,
    count_rels T (after ops s) = count_rels T s \/
    (count_rels T s = 0%nat /\ singleton T = true /\
     count_rels T (after ops s) = 1%nat).
Proof.
  induction ops as [| o r IH]; intros s; [left; reflexivity |].
  change (after (o :: r) s) with (after r (final (exec o s))).
  destruct (count_rels_step o s T) as [H1 | [H0 [HT H1]]];
    destruct (IH (final (exec o s))) as [H2 | [H2 [HT' H3]]].
  - left. congruence.
  - right. split; [congruence |]. split; assumption.
  - right. split; [assumption |]. split; [assumption | congruence].
  - congruence.
Qed.

Lemma count_rels_after_bound (ops : list Op) (T : RT) :
  forall s,
    (count_rels T (after ops s) <=
     count_rels T s + (if singleton T then 1 else 0))%nat /\
    (count_rels T s <> 0%nat -> count_rels T (after ops s) = count_rels T s).
Proof.
  induction ops as [| o r IH]; intros s; [split; [simpl; lia | reflexivity] |].
  change (after (o :: r) s) with (after r (final (exec o s))).
  destruct (IH (final (exec o s))) as [IH1 IH2].
  destruct (count_rels_step o s T) as [H1 | [H0 [HT H1]]].
  - rewrite H1 in IH1, IH2. split; assumption.
  - rewrite HT. split; [| congruence].
    rewrite IH2 by lia. lia.
Qed.

Lemma length_by_type (l : list Relationship) :
  length l =
  (length (filter (of_type STYLES) l) + length (filter (of_type NUMBERING) l) +
   length (filter (of_type SETTINGS) l) + length (filter (of_type CORE_PROPERTIES) l))%nat.
Proof.
  induction l as [| [T p] r IH]; [reflexivity |].
  destruct T; cbn [filter of_type reltype RT_eqb]; simpl; lia.
Qed.

Lemma after_grows_lockstep (ops : list Op) :
  forall s, exists new_rels new_objects,
    rels (after ops s) = rels s ++ new_rels /\
    objects (after ops s) = objects s ++ new_objects /\
    length new_rels = length new_objects.
Proof.
  induction ops as [| o r IH]; simpl; intros s.
  - exists [], []. rewrite !app_nil_r. auto.
  - destruct (IH (final (exec o s))) as [nr [no [Hr [Ho Hl]]]].
    destruct (exec_grows o s) as [[Er Eo] | [a [_ [Er Eo]]]].
    + exists nr, no. rewrite Hr, Ho, Er, Eo. auto.
    + eexists (_ :: nr), (_ :: no). rewrite Hr, Ho, Er, Eo, <- !app_assoc. simpl.
      split; [reflexivity |]. split; [reflexivity |]. lia.
Qed.

(** X13. No operation removes or replaces anything: after any sequence of
    operations the relationships and the objects are the old ones followed
    by new ones, as many new objects as new relationships, and at most
    three of each. *)
Lemma after_only_appends (ops : list Op) (s : State) :
  exists new_rels new_objects,
    rels (after ops s) = rels s ++ new_rels /\
    objects (after ops s) = objects s ++ new_objects /\
    length new_rels = length new_objects /\
    (length new_rels <= 3)%nat.
Proof.
  destruct (after_grows_lockstep ops s) as [nr [no [Hr [Ho Hl]]]].
  exists nr, no. repeat split; try assumption.
  assert (Hlen : length (rels (after ops s)) = (length (rels s) + length nr)%nat)
    by (rewrite Hr; apply length_app).
  rewrite (length_by_type (rels (after ops s))), (length_by_type (rels s)) in Hlen.
  destruct (count_rels_after_bound ops STYLES s) as [H1 _].
  destruct (count_rels_after_bound ops NUMBERING s) as [H2 _].
  destruct (count_rels_after_bound ops SETTINGS s) as [H3 _].
  destruct (count_rels_after_bound ops CORE_PROPERTIES s) as [H4 _].
  unfold count_rels in *. simpl in *. lia.
Qed.

Lemma known_after_hit (a b : Accessor) (s : State) (q : ref) :
  known a s = Some q -> known b s <> None -> known b (final (access a s)) <> None.
Proof.
  intros Ha Hb.
  destruct (@access_hit a s q Ha) as [s' [H1 [Hr _]]].
  assert (Hc : forall c, lazy_numbering_part s = Some c ->
                         lazy_numbering_part (final (access a s)) = Some c).
  { intros c Hc. exact (access_keeps_settled The_numbering_part a s c Hc). }
  rewrite H1 in *. simpl in *. unfold known in *. rewrite Hr.
  destruct b; simpl in *; try exact Hb.
  destruct (lazy_numbering_part s) as [c |].
  - rewrite (Hc c eq_refl). discriminate.
  - destruct (lazy_numbering_part s'); [discriminate | exact Hb].
Qed.

Lemma exec_saturated (o : Op) (s : State) :
  (forall a, known a s <> None) ->
  rels (final (exec o s)) = rels s /\
  objects (final (exec o s)) = objects s /\
  forall a, known a (final (exec o s)) <> None.
Proof.
  intros Hall. rewrite exec_final.
  destruct o;
    try (split; [reflexivity | split; [reflexivity | exact Hall]]);
    match goal with
    | |- context [access ?a s] =>
        destruct (known a s) as [q |] eqn:Hk; [| exfalso; exact (Hall a Hk)];
        destruct (@access_hit a s q Hk) as [s' [H1 [H2 H3]]];
        split; [rewrite H1; exact H2 |];
        split; [rewrite H1; exact H3 |];
        intros b; apply (known_after_hit a b s q Hk (Hall b))
    end.
Qed.

(** X14. Once each of the three accessors has a part to go on, no sequence
    of operations adds a relationship or builds an object. *)
Lemma after_saturated (ops : list Op) :
  forall s,
    (forall a, known a s <> None) ->
    rels (after ops s) = rels s /\ objects (after ops s) = objects s.
Proof.
  induction ops as [| o r IH]; simpl; intros s Hall; [auto |].
  destruct (exec_saturated o s Hall) as [Hr [Ho Hk]].
  destruct (IH _ Hk) as [Hr' Ho']. split; congruence.
Qed.

(** ** How often the relationships are looked up *)

Lemma access_lookups (a : Accessor) (s : State) (U : RT) :
  lookups U (final (access a s)) =
  (lookups U s +
   match a, lazy_numbering_part s with
   | The_numbering_part, Some _ => 0
   | _, _ => if RT_eq_dec U (reltype_of a) then 1 else 0
   end)%nat.
Proof.
  rewrite access_unfold. unfold lookups.
  destruct a; simpl;
    try (destruct (lazy_numbering_part s); simpl; [lia |]);
    destruct (find _ (rels s)); destruct U; simpl; lia.
Qed.

Lemma exec_lookups (o : Op) (s : State) (U : RT) :
  lookups U (final (exec o s)) =
  (lookups U s +
   match accessor_of o with
   | Some a =>
       match a, lazy_numbering_part s with
       | The_numbering_part, Some _ => 0
       | _, _ => if RT_eq_dec U (reltype_of a) then 1 else 0
       end
   | None => 0
   end)%nat.
Proof.
  rewrite exec_final. destruct o; simpl accessor_of; cbv iota;
    try apply access_lookups. lia.
Qed.

Lemma numbering_fills_slot (s : State) :
  lazy_numbering_part (final (access The_numbering_part s)) <> None.
Proof.
  rewrite access_unfold. simpl.
  destruct (lazy_numbering_part s) eqn:Hc; simpl; [congruence |].
  destruct (find (of_type NUMBERING) (rels s)); simpl; discriminate.
Qed.

Lemma exec_keeps_slot (o : Op) (s : State) :
  lazy_numbering_part s <> None -> lazy_numbering_part (final (exec o s)) <> None.
Proof.
  intros H. destruct (lazy_numbering_part s) as [c |] eqn:Hc; [| congruence].
  rewrite (exec_keeps_settled The_numbering_part c o s Hc). discriminate.
Qed.

Lemma numbering_lookups_after (ops : list Op) :
  forall s,
    (lazy_numbering_part s <> None ->
     lookups NUMBERING (after ops s) = lookups NUMBERING s) /\
    (lookups NUMBERING (after ops s) <= lookups NUMBERING s + 1)%nat.
Proof.
  induction ops as [| o r IH]; intros s.
  - split; [reflexivity | simpl; lia].
  - change (after (o :: r) s) with (after r (final (exec o s))).
    destruct (IH (final (exec o s))) as [IH1 IH2].
    pose proof (exec_lookups o s NUMBERING) as Hl.
    pose proof (exec_keeps_slot o s) as Hk.
    destruct (lazy_numbering_part s) as [c |] eqn:Hc.
    + assert (Hsame : lookups NUMBERING (final (exec o s)) = lookups NUMBERING s).
      { rewrite Hl. destruct (accessor_of o) as [[] |]; simpl; lia. }
      assert (Hs : lazy_numbering_part (final (exec o s)) <> None)
        by (apply Hk; discriminate).
      rewrite (IH1 Hs), Hsame. split; [reflexivity | lia].
    + split; [congruence |].
      destruct (accessor_of o) as [[] |] eqn:Ho; simpl in Hl; try lia.
      assert (Hs : lazy_numbering_part (final (exec o s)) <> None).
      { rewrite exec_final. destruct o; try discriminate Ho.
        apply numbering_fills_slot. }
      rewrite (IH1 Hs). lia.
Qed.

Lemma plain_lookups_after (a : Accessor) (ops : list Op) :
  a <> The_numbering_part ->
  forall s,
    lookups (reltype_of a) (after ops s) =
    (lookups (reltype_of a) s + length (filter (goes_through a) ops))%nat.
Proof.
  intros Ha. induction ops as [| o r IH]; intros s.
  - simpl. lia.
  - change (after (o :: r) s) with (after r (final (exec o s))).
    rewrite IH, exec_lookups. simpl filter. unfold goes_through at 2.
    destruct (accessor_of o) as [b |]; [| simpl; lia].
    destruct a, b; try congruence; simpl;
      destruct (lazy_numbering_part s); simpl; lia.
Qed.

(** X15. Over any sequence of operations [part_related_by] is called for
    STYLES once per operation that goes through [_styles_part] ([get_style],
    [get_style_id], [styles], [_styles_part]), for SETTINGS once per
    operation that goes through [_settings_part], and for NUMBERING at most
    once in all. *)
Lemma lookups_after (ops : list Op) (s : State) :
  lookups STYLES (after ops s) =
    (lookups STYLES s + length (filter (goes_through The_styles_part) ops))%nat /\
  lookups SETTINGS (after ops s) =
    (lookups SETTINGS s + length (filter (goes_through The_settings_part) ops))%nat /\
  (lookups NUMBERING (after ops s) <= lookups NUMBERING s + 1)%nat.
Proof.
  split; [| split].
  - apply (plain_lookups_after The_styles_part). discriminate.
  - apply (plain_lookups_after The_settings_part). discriminate.
  - apply numbering_lookups_after.
Qed.

(** ** [styles] and [settings] over time *)

Lemma nth_error_after (ops : list Op) (s : State) (p : ref) (x : Part) :
  nth_error (objects s) p = Some x -> nth_error (objects (after ops s)) p = Some x.
Proof.
  intros H. destruct (after_grows_lockstep ops s) as [nr [no [_ [Ho _]]]].
  rewrite Ho, nth_error_app1; [exact H |].
  apply nth_error_Some. congruence.
Qed.

(** X16. [styles] keeps reading the same styles part: once it has
    returned, every later access, after any sequence of operations, goes to
    the part at the same address, which still holds equal styles, and
    returns them, at the cost of one more look-up and of nothing else. *)
Lemma styles_stable (s s1 : State) (sty : Styles) (ops : list Op) :
  styles s = Returns sty s1 ->
  exists p,
    _styles_part s = Returns p s1 /\
    _styles_part (after ops s1) = Returns p (looked_up STYLES (after ops s1)) /\
    nth_error (objects (after ops s1)) p = Some (StylesPart sty) /\
    styles (after ops s1) = Returns sty (looked_up STYLES (after ops s1)).
Proof.
  unfold styles at 1, bind. change (_styles_part s) with (access The_styles_part s).
  destruct (access The_styles_part s) as [p s' | e s'] eqn:Ha; [| discriminate].
  unfold getattr_styles.
  destruct (nth_error (objects s') p) as [[x | | y |] |] eqn:Hn; try discriminate.
  intros H. inversion H. subst x s'.
  pose proof (after_keeps_settled The_styles_part p ops s1
                (access_settles The_styles_part s s1 p Ha)) as Hs.
  pose proof (nth_error_after ops s1 p _ Hn) as Hn'.
  pose proof (settled_access The_styles_part _ p Hs) as Hp.
  exists p. split; [reflexivity |]. split; [exact Hp |]. split; [exact Hn' |].
  unfold styles, bind. change (_styles_part (after ops s1))
    with (access The_styles_part (after ops s1)).
  rewrite Hp. unfold getattr_styles. simpl. rewrite Hn'. reflexivity.
Qed.

(** X17. [settings] keeps reading the same settings part: once it has
    returned, every later access, after any sequence of operations, goes to
    the part at the same address, which still holds equal settings, and
    returns them, at the cost of one more look-up and of nothing else. *)
Lemma settings_stable (s s1 : State) (stg : Settings) (ops : list Op) :
  settings s = Returns stg s1 ->
  exists p,
    _settings_part s = Returns p s1 /\
    _settings_part (after ops s1) = Returns p (looked_up SETTINGS (after ops s1)) /\
    nth_error (objects (after ops s1)) p = Some (SettingsPart stg) /\
    settings (after ops s1) = Returns stg (looked_up SETTINGS (after ops s1)).
Proof.
  unfold settings at 1, bind. change (_settings_part s) with (access The_settings_part s).
  destruct (access The_settings_part s) as [p s' | e s'] eqn:Ha; [| discriminate].
  unfold getattr_settings.
  destruct (nth_error (objects s') p) as [[x | | y |] |] eqn:Hn; try discriminate.
  intros H. inversion H. subst y s'.
  pose proof (after_keeps_settled The_settings_part p ops s1
                (access_settles The_settings_part s s1 p Ha)) as Hs.
  pose proof (nth_error_after ops s1 p _ Hn) as Hn'.
  pose proof (settled_access The_settings_part _ p Hs) as Hp.
  exists p. split; [reflexivity |]. split; [exact Hp |]. split; [exact Hn' |].
  unfold settings, bind. change (_settings_part (after ops s1))
    with (access The_settings_part (after ops s1)).
  rewrite Hp. unfold getattr_settings. simpl. rewrite Hn'. reflexivity.
Qed.

Lemma _settings_part_unfold (s : State) :
  _settings_part s =
  match find (of_type SETTINGS) (rels s) with
  | Some r => Returns (target_part r) (looked_up SETTINGS s)
  | None =>
      Returns (length (objects s)) (created SETTINGS (SettingsPart default_settings) s)
  end.
Proof.
  unfold _settings_part, try_except, part_related_by, SettingsPart_default, relate_to,
    new_object, record_call, bind, ret; simpl.
  destruct (find (of_type SETTINGS) (rels s)); reflexivity.
Qed.

(** X18. Under the kind invariant [settings] never raises: it returns the
    settings of the part related by SETTINGS when there is one, and those of
    a newly built and newly related default settings part when there is
    none. *)
Lemma settings_returns (s : State) :
  kinds_ok s ->
  exists stg,
    settings s = Returns stg (final (_settings_part s)) /\
    match find (of_type SETTINGS) (rels s) with
    | Some r =>
        nth_error (objects s) (target_part r) = Some (SettingsPart stg) /\
        rels (final (_settings_part s)) = rels s
    | None =>
        stg = default_settings /\
        rels (final (_settings_part s)) = rels s ++ [mkRel SETTINGS (length (objects s))]
    end.
Proof.
  intros Hk. unfold settings, bind. rewrite _settings_part_unfold.
  destruct (find (of_type SETTINGS) (rels s)) as [r |] eqn:Hf; simpl.
  - destruct (find_some _ _ Hf) as [Hin Ht]. apply of_type_true in Ht.
    destruct (kinds_ok_rel s r Hk Hin) as [p [Hp Hm]].
    rewrite Ht in Hm. unfold getattr_settings. simpl. rewrite Hp.
    destruct p; simpl in Hm; try discriminate. eauto.
  - unfold getattr_settings. simpl. rewrite nth_error_last. eauto.
Qed.


(** X20. A style look-up on a part with no STYLES relationship builds the
    default styles part and relates it before it looks anything up, so the
    part and the relationship are there whatever the look-up then returns
    or raises, also for an absent name. *)
Lemma style_lookup_builds_styles_part (s : State) :
  find (of_type STYLES) (rels s) = None ->
  forall n t,
    final (get_style n t s) = created STYLES (StylesPart default_styles) s /\
    final (get_style_id n t s) = created STYLES (StylesPart default_styles) s.
Proof.
  intros Hf n t.
  assert (Hs : final (styles s) = created STYLES (StylesPart default_styles) s).
  { unfold styles. rewrite final_bind by apply final_getattr_styles.
    rewrite _styles_part_unfold, Hf. reflexivity. }
  split.
  - unfold get_style. rewrite final_bind by reflexivity. exact Hs.
  - unfold get_style_id. rewrite final_bind by (intros; apply final_lift). exact Hs.
Qed.

(** ** The parts the accessors return *)

Lemma kinds_ok_target_bound (s : State) (r : Relationship) :
  kinds_ok s -> In r (rels s) -> (target_part r < length (objects s))%nat.
Proof.
  intros Hk Hin. destruct (kinds_ok_rel s r Hk Hin) as [p [Hp _]].
  apply nth_error_Some. congruence.
Qed.

(** X21. A part an accessor builds is a new instance: under the kind
    invariant, when an accessor has nothing to go on, the part it returns
    is the target of no relationship the part had before. *)
Lemma new_part_is_fresh (a : Accessor) (s : State) :
  kinds_ok s ->
  known a s = None ->
  exists p s',
    access a s = Returns p s' /\
    nth_error (objects s') p = Some (default_part a) /\
    forall r, In r (rels s) -> target_part r <> p.
Proof.
  intros Hk Hn. rewrite (@access_miss a s Hn).
  eexists. eexists. split; [reflexivity |]. split.
  - rewrite objects_remember. simpl. apply nth_error_last.
  - intros r Hin. pose proof (kinds_ok_target_bound s r Hk Hin). lia.
Qed.

Lemma access_returns_related (a : Accessor) (s s1 : State) (p : ref) :
  cache_sound s ->
  access a s = Returns p s1 ->
  In (mkRel (reltype_of a) p) (rels s1).
Proof.
  intros Hc. rewrite access_unfold.
  assert (Hfound : forall T r, find (of_type T) (rels s) = Some r ->
                     In (mkRel T (target_part r)) (rels s)).
  { intros T r Hf. destruct (find_some _ _ Hf) as [Hin Ht].
    apply of_type_true in Ht. destruct r as [U q]. simpl in *. subst U. exact Hin. }
  destruct a; simpl.
  - destruct (find (of_type STYLES) (rels s)) as [r |] eqn:Hf;
      intros H; inversion H; subst; simpl.
    + apply Hfound. exact Hf.
    + apply in_or_app. right. left. reflexivity.
  - destruct (lazy_numbering_part s) as [c |] eqn:Hl.
    + intros H. inversion H. subst. apply Hc. exact Hl.
    + destruct (find (of_type NUMBERING) (rels s)) as [r |] eqn:Hf;
        intros H; inversion H; subst; simpl.
      * apply Hfound. exact Hf.
      * apply in_or_app. right. left. reflexivity.
  - destruct (find (of_type SETTINGS) (rels s)) as [r |] eqn:Hf;
      intros H; inversion H; subst; simpl.
    + apply Hfound. exact Hf.
    + apply in_or_app. right. left. reflexivity.
Qed.

Lemma access_keeps_rels (a : Accessor) (s : State) (r : Relationship) :
  In r (rels s) -> In r (rels (final (access a s))).
Proof.
  intros Hin. destruct (access_grows a s) as [[Hr _] | [_ [Hr _]]]; rewrite Hr.
  - exact Hin.
  - apply in_or_app. left. exact Hin.
Qed.

(** X22. The styles, numbering and settings parts are three different
    instances: under the kind invariant and with a sound cache slot, two
    different accessors never return the same part. *)
Lemma accessors_return_distinct_parts (a b : Accessor) (s s1 s2 : State) (p q : ref) :
  kinds_ok s ->
  cache_sound s ->
  access a s = Returns p s1 ->
  access b s1 = Returns q s2 ->
  a <> b ->
  p <> q.
Proof.
  intros Hk Hc Ha Hb Hab Hpq. subst q.
  assert (Hk1 : kinds_ok s1).
  { pose proof (access_keeps_kinds_ok a s Hk) as H. rewrite Ha in H. exact H. }
  assert (Hc1 : cache_sound s1).
  { pose proof (access_keeps_cache_sound a s Hc) as H. rewrite Ha in H. exact H. }
  assert (Hk2 : kinds_ok s2).
  { pose proof (access_keeps_kinds_ok b s1 Hk1) as H. rewrite Hb in H. exact H. }
  pose proof (access_returns_related a s s1 p Hc Ha) as Hina.
  pose proof (access_returns_related b s1 s2 p Hc1 Hb) as Hinb.
  pose proof (access_keeps_rels b s1 _ Hina) as Hina2. rewrite Hb in Hina2. simpl in Hina2.
  destruct (kinds_ok_rel s2 _ Hk2 Hina2) as [x [Hx Hmx]].
  destruct (kinds_ok_rel s2 _ Hk2 Hinb) as [y [Hy Hmy]].
  simpl in *. rewrite Hx in Hy. inversion Hy. subst y.
  destruct a, b, x; simpl in *; congruence.
Qed.

(** ** Accesses in either order *)

Lemma find_after_edge (U T : RT) (p : ref) (l : list Relationship) :
  find (of_type U) (l ++ [mkRel T p]) =
  match find (of_type U) l with
  | Some r => Some r
  | None => if RT_eq_dec T U then Some (mkRel T p) else None
  end.
Proof.
  destruct (find (of_type U) l) as [r |] eqn:Hf.
  - apply find_app_found. exact Hf.
  - rewrite (find_app_missing _ _ _ Hf). simpl.
    destruct (RT_eq_dec T U) as [-> | Hne].
    + rewrite of_type_refl. reflexivity.
    + rewrite (of_type_other _ _ p Hne). reflexivity.
Qed.

Lemma count_after_access (a : Accessor) (s : State) (T : RT) :
  count_rels T (final (access a s)) =
  (count_rels T s +
   match known a s with
   | Some _ => 0
   | None => if RT_eq_dec (reltype_of a) T then 1 else 0
   end)%nat.
Proof.
  destruct (known a s) as [q |] eqn:Hk.
  - destruct (@access_hit a s q Hk) as [s' [H1 [H2 _]]].
    rewrite H1. unfold count_rels. simpl. rewrite H2. lia.
  - rewrite (@access_miss a s Hk). unfold count_rels. simpl.
    rewrite rels_remember. simpl. apply count_after_edge.
Qed.

(** What another accessor has to go on is there after an access exactly
    when it was there before. *)
Lemma known_none_other (a b : Accessor) (s : State) :
  a <> b -> (known b (final (access a s)) = None <-> known b s = None).
Proof.
  intros Hab. destruct (known a s) as [q |] eqn:Hk.
  - destruct (@access_hit a s q Hk) as [s' [H1 [Hr _]]].
    assert (Hc : a <> The_numbering_part -> lazy_numbering_part s' = lazy_numbering_part s).
    { intros Hn. rewrite access_unfold in H1. destruct a; try congruence; simpl in H1;
        destruct (find _ (rels s)); inversion H1; reflexivity. }
    rewrite H1. simpl. unfold known. rewrite Hr.
    destruct b; try tauto.
    rewrite Hc by congruence. tauto.
  - rewrite (@access_miss a s Hk). simpl. unfold known.
    rewrite rels_remember. simpl. rewrite find_after_edge.
    destruct a, b; try congruence; simpl;
      try (destruct (lazy_numbering_part s); [split; discriminate |]);
      match goal with
      | |- context [find ?f (rels s)] => destruct (find f (rels s)); simpl
      end; tauto.
Qed.

Lemma count_after_two (a b : Accessor) (s : State) (T : RT) :
  a <> b ->
  count_rels T (final (access b (final (access a s)))) =
  (count_rels T s +
   match known a s with
   | Some _ => 0
   | None => if RT_eq_dec (reltype_of a) T then 1 else 0
   end +
   match known b s with
   | Some _ => 0
   | None => if RT_eq_dec (reltype_of b) T then 1 else 0
   end)%nat.
Proof.
  intros Hab. rewrite (count_after_access b), (count_after_access a).
  pose proof (known_none_other a b s Hab) as [H1 H2].
  destruct (known b (final (access a s))) as [q |] eqn:E1,
    (known b s) as [q' |] eqn:E2; try reflexivity.
  - specialize (H2 eq_refl). discriminate H2.
  - specialize (H1 eq_refl). discriminate H1.
Qed.

(** X23. Which accessor is used first does not matter for which
    relationships exist afterwards: for two different accessors, the number
    of relationships of every type, and the number of part objects, is the
    same after either order of access. *)
Lemma access_order_irrelevant (a b : Accessor) (s : State) :
  a <> b ->
  (forall T,
     count_rels T (final (access b (final (access a s)))) =
     count_rels T (final (access a (final (access b s))))) /\
  length (objects (final (access b (final (access a s))))) =
  length (objects (final (access a (final (access b s))))).
Proof.
  intros Hab.
  assert (Hcount : forall T,
            count_rels T (final (access b (final (access a s)))) =
            count_rels T (final (access a (final (access b s))))).
  { intros T. rewrite (count_after_two a b s T Hab).
    rewrite (count_after_two b a s T (fun H => Hab (eq_sym H))). lia. }
  split; [exact Hcount |].
  assert (Hobj : forall x y t,
            (length (objects (final (access y (final (access x t))))) +
             length (rels t) =
             length (objects t) +
             length (rels (final (access y (final (access x t))))))%nat).
  { intros x y t.
    destruct (access_grows x t) as [[Hr Ho] | [_ [Hr Ho]]];
      destruct (access_grows y (final (access x t))) as [[Hr' Ho'] | [_ [Hr' Ho']]];
      rewrite Hr', Ho', Hr, Ho, ?length_app; simpl; lia. }
  pose proof (Hobj a b s) as H1. pose proof (Hobj b a s) as H2.
  rewrite (length_by_type (rels (final (access b (final (access a s)))))) in H1.
  rewrite (length_by_type (rels (final (access a (final (access b s)))))) in H2.
  pose proof (Hcount STYLES). pose proof (Hcount NUMBERING).
  pose proof (Hcount SETTINGS). pose proof (Hcount CORE_PROPERTIES).
  unfold count_rels in *. lia.
Qed.


End FooterPart.

(** ** The theorems at sample documents *)

Example get_style_id_wrong_type :
  get_style_id sample_styles (Some "Heading 1"%string) CHARACTER loaded_with_styles =
  Raises WrongStyleType (looked_up STYLES loaded_with_styles).
Proof. reflexivity. Qed.

Example get_style_id_not_found :
  get_style_id sample_styles (Some "NoSuchStyle"%string) PARAGRAPH loaded_with_styles =
  Raises StyleNotFound (looked_up STYLES loaded_with_styles).
Proof. reflexivity. Qed.

Example get_style_id_absent :
  get_style_id sample_styles None PARAGRAPH loaded_with_styles =
  Returns None (looked_up STYLES loaded_with_styles).
Proof. reflexivity. Qed.

Example get_style_id_of_default :
  get_style_id sample_styles (Some "Normal"%string) PARAGRAPH loaded_with_styles =
  Returns None (looked_up STYLES loaded_with_styles).
Proof. reflexivity. Qed.

Example get_style_id_by_name :
  get_style_id sample_styles (Some "Heading 1"%string) PARAGRAPH loaded_with_styles =
  Returns (Some "Heading1"%string) (looked_up STYLES loaded_with_styles).
Proof. reflexivity. Qed.

Example get_style_absent_id :
  value (get_style sample_styles None PARAGRAPH (loaded footer_no_id)) = inr Normal.
Proof. reflexivity. Qed.

Example get_style_bogus_id :
  value (get_style sample_styles (Some "bogus-id"%string) PARAGRAPH (loaded footer_no_id)) =
  inr Normal.
Proof. reflexivity. Qed.

Lemma loaded_cache_sound (e : Element) : cache_sound (loaded e).
Proof. intros p H. discriminate H. Qed.

Lemma loaded_singleton_inv (e : Element) : singleton_inv (loaded e).
Proof. intros T _. unfold count_rels. simpl. lia. Qed.

(** C1 at the styles accessor of a part loaded without relationships. *)
Lemma access_twice_creates_one_witness :
  cache_sound (loaded footer_no_id) /\
  count_rels STYLES (loaded footer_no_id) = 0%nat /\
  exists p s1 s2,
    access sample_styles sample_settings The_styles_part (loaded footer_no_id)
      = Returns p s1 /\
    access sample_styles sample_settings The_styles_part s1 = Returns p s2 /\
    p = length (objects (loaded footer_no_id)) /\
    nth_error (objects s1) p = Some (default_part sample_styles sample_settings The_styles_part) /\
    rels s1 = rels (loaded footer_no_id) ++ [mkRel STYLES p] /\
    rels s2 = rels s1 /\
    count_rels STYLES s1 = 1%nat /\
    count_rels STYLES s2 = 1%nat.
Proof.
  split; [intros p H; discriminate H |].
  split; [reflexivity |].
  apply (access_twice_creates_one sample_styles sample_settings
           The_styles_part (loaded footer_no_id)).
  - intros p H. discriminate H.
  - reflexivity.
Defined.

(** C2, as the claim words it, fails for [_styles_part]: the second access
    of a part loaded without relationships calls [part_related_by] again. *)
Lemma styles_part_looks_up_again :
  ~ repeat_access_skips_lookup sample_styles sample_settings.
Proof.
  intros H.
  specialize (H The_styles_part (loaded footer_no_id)
                (created STYLES (StylesPart sample_styles) (loaded footer_no_id))
                0%nat eq_refl).
  vm_compute in H. discriminate H.
Qed.

(** C2, as the code has it, at [numbering_part] accessed again after a look
    at the settings and at [next_id]. *)
Lemma repeat_access_witness :
  access sample_styles sample_settings The_numbering_part
    (after sample_styles sample_settings [Op_settings; Op_next_id]
       (set_lazy_numbering_part (Some 0%nat) (created NUMBERING NumberingPart (loaded footer_no_id))))
  = Returns 0%nat
      (after sample_styles sample_settings [Op_settings; Op_next_id]
         (set_lazy_numbering_part (Some 0%nat) (created NUMBERING NumberingPart (loaded footer_no_id)))).
Proof.
  exact (repeat_access sample_styles sample_settings The_numbering_part
           (loaded footer_no_id)
           (set_lazy_numbering_part (Some 0%nat) (created NUMBERING NumberingPart (loaded footer_no_id)))
           0%nat [Op_settings; Op_next_id] eq_refl).
Defined.


(** C7 at a style look-up on a part loaded without relationships. *)
Lemma exec_keeps_singleton_inv_witness :
  singleton_inv (loaded footer_no_id) /\
  singleton_inv
    (final (exec sample_styles sample_settings
              (Op_get_style (Some "Heading1"%string) PARAGRAPH) (loaded footer_no_id))).
Proof.
  split; [intros T _; unfold count_rels; simpl; lia |].
  apply (exec_keeps_singleton_inv sample_styles sample_settings
           (Op_get_style (Some "Heading1"%string) PARAGRAPH) (loaded footer_no_id)).
  intros T _. unfold count_rels. simpl. lia.
Defined.


(** C9 at the same part: an identifier the document does not define gives
    the default paragraph style. *)
Lemma get_style_never_fails_witness :
  kinds_ok loaded_with_normal_only /\
  get_style sample_styles (Some "Heading1"%string) PARAGRAPH loaded_with_normal_only =
  Returns Normal (looked_up STYLES loaded_with_normal_only).
Proof.
  split; [reflexivity |].
  destruct (get_style_never_fails sample_styles (Some "Heading1"%string) PARAGRAPH
              loaded_with_normal_only eq_refl)
    as [sty [s' [st [Htie [Hs' [_ [Hg [_ [_ Hd]]]]]]]]].
  assert (E : sty = normal_only_styles) by (simpl in Htie; inversion Htie; reflexivity).
  subst sty. subst s'.
  rewrite Hg. f_equal.
  apply (Hd "Heading1"%string eq_refl).
  intros [x [[<- | []] [Hid _]]]. discriminate Hid.
Defined.

(** [next_id] at a footer whose only id is 0. *)
Lemma next_id_positive_witness :
  next_id (loaded footer_0) = Returns 1%Z (loaded footer_0) /\ (1 <= 1)%Z.
Proof.
  split; [reflexivity |].
  exact (next_id_positive (loaded footer_0) (loaded footer_0) 1%Z eq_refl).
Defined.

(** [next_id] at the footer with the ids 3, 7, x and 1: [int] returns on
    the three that pass the digit test. *)
Lemma next_id_when_int_returns_witness :
  exists vs,
    (forall v, In v vs <->
       exists id_str, In id_str (xpath_all_id footer_3_7_x_1) /\
                      Py.isdigit id_str = true /\ Py.int id_str = inr v) /\
    next_id (loaded footer_3_7_x_1) =
    Returns (match vs with
             | [] => 1
             | x :: r => fold_left Z.max r x + 1
             end)%Z (loaded footer_3_7_x_1).
Proof.
  apply (next_id_when_int_returns (loaded footer_3_7_x_1)).
  simpl. intros id_str [<- | [<- | [<- | [<- | []]]]] H;
    first [discriminate H | eexists; reflexivity].
Defined.

(** [next_id] at the footer with the id U+00B2. *)
Lemma next_id_raises_inv_witness :
  ValueError = ValueError /\
  loaded footer_3_7_sup2_1 = loaded footer_3_7_sup2_1 /\
  exists id_str, In id_str (xpath_all_id footer_3_7_sup2_1) /\
                 Py.isdigit id_str = true /\ Py.int id_str = inl ValueError.
Proof.
  exact (next_id_raises_inv (loaded footer_3_7_sup2_1) (loaded footer_3_7_sup2_1)
           ValueError eq_refl).
Defined.

(** Writing the id that [next_id] has just given, 8, moves [next_id] to 9. *)
Lemma next_id_after_append_witness :
  next_id (set_element
             (append_child footer_3_7_x_1 (Elem "wp:docPr" [bare "id" "8"] []))
             (loaded footer_3_7_x_1)) =
  Returns 9%Z
    (set_element
       (append_child footer_3_7_x_1 (Elem "wp:docPr" [bare "id" "8"] []))
       (loaded footer_3_7_x_1)).
Proof.
  exact (next_id_after_append (loaded footer_3_7_x_1) (loaded footer_3_7_x_1)
           8%Z 8%Z "wp:docPr" "8" eq_refl eq_refl).
Defined.

(** The invariants after a run of operations on a part loaded without
    relationships. *)
Lemma after_keeps_singleton_inv_witness :
  singleton_inv
    (after sample_styles sample_settings
       [Op__styles_part; Op_numbering_part; Op_styles; Op_settings; Op_numbering_part]
       (loaded footer_no_id)).
Proof.
  apply (after_keeps_singleton_inv sample_styles sample_settings).
  intros T _. unfold count_rels. simpl. lia.
Defined.

Lemma after_keeps_cache_sound_witness :
  cache_sound
    (after sample_styles sample_settings
       [Op_numbering_part; Op_settings; Op_numbering_part] (loaded footer_no_id)).
Proof.
  apply (after_keeps_cache_sound sample_styles sample_settings).
  intros p H. discriminate H.
Defined.

Lemma exec_keeps_kinds_ok_witness :
  kinds_ok
    (final (exec sample_styles sample_settings Op_settings loaded_with_styles)).
Proof.
  apply (exec_keeps_kinds_ok sample_styles sample_settings).
  reflexivity.
Defined.

(** The footer with the ids 3, 7, x and 1 and the same tree under other
    element names and with other attributes beside the ids. *)
Lemma next_id_skeleton_witness :
  value (next_id (loaded footer_3_7_x_1)) =
  value (next_id (loaded
    (Elem "ftr" [prefixed "w" "id" "40"]
       [ Elem "a:graphic" []
           [ Elem "pic:pic" [bare "id" "3"; prefixed "r" "id" "rId5"] [];
             Elem "w:drawing" [bare "id" "7"; bare "descr" "logo"] [] ];
         Elem "w:sdt" [bare "id" "x"] [];
         Elem "v:rect" [bare "id" "1"] [] ]))).
Proof.
  apply (next_id_skeleton (loaded footer_3_7_x_1)). reflexivity.
Defined.

(** The same ids in the opposite document order. *)
Lemma next_id_any_order_witness :
  value (next_id (loaded footer_3_7_x_1)) = value (next_id (loaded footer_1_x_7_3)).
Proof.
  apply (next_id_any_order (loaded footer_3_7_x_1) (loaded footer_1_x_7_3)).
  change (Permutation ["3"; "7"; "x"; "1"]%string (rev ["3"; "7"; "x"; "1"]%string)).
  apply Permutation_rev.
Defined.

(** A part on which each accessor has run once. *)
Lemma after_saturated_witness :
  rels (after sample_styles sample_settings
          [Op_get_style None PARAGRAPH; Op_settings; Op_numbering_part; Op_next_id]
          (after sample_styles sample_settings
             [Op_styles; Op_numbering_part; Op_settings] (loaded footer_no_id)))
  = rels (after sample_styles sample_settings
            [Op_styles; Op_numbering_part; Op_settings] (loaded footer_no_id)) /\
  objects (after sample_styles sample_settings
             [Op_get_style None PARAGRAPH; Op_settings; Op_numbering_part; Op_next_id]
             (after sample_styles sample_settings
                [Op_styles; Op_numbering_part; Op_settings] (loaded footer_no_id)))
  = objects (after sample_styles sample_settings
               [Op_styles; Op_numbering_part; Op_settings] (loaded footer_no_id)).
Proof.
  apply (after_saturated sample_styles sample_settings).
  intros a. destruct a; vm_compute; discriminate.
Defined.

(** [styles] again after other operations, on a part loaded with a styles
    part. *)
Lemma styles_stable_witness :
  exists p,
    _styles_part sample_styles loaded_with_styles =
      Returns p (looked_up STYLES loaded_with_styles) /\
    _styles_part sample_styles
      (after sample_styles sample_settings [Op_settings; Op_numbering_part]
         (looked_up STYLES loaded_with_styles))
    = Returns p
        (looked_up STYLES
           (after sample_styles sample_settings [Op_settings; Op_numbering_part]
              (looked_up STYLES loaded_with_styles))) /\
    nth_error
      (objects (after sample_styles sample_settings [Op_settings; Op_numbering_part]
                  (looked_up STYLES loaded_with_styles))) p
    = Some (StylesPart sample_styles) /\
    styles sample_styles
      (after sample_styles sample_settings [Op_settings; Op_numbering_part]
         (looked_up STYLES loaded_with_styles))
    = Returns sample_styles
        (looked_up STYLES
           (after sample_styles sample_settings [Op_settings; Op_numbering_part]
              (looked_up STYLES loaded_with_styles))).
Proof.
  exact (styles_stable sample_styles sample_settings loaded_with_styles
           (looked_up STYLES loaded_with_styles) sample_styles
           [Op_settings; Op_numbering_part] eq_refl).
Defined.

(** [settings] again after other operations, on a part loaded without
    relationships. *)
Lemma settings_stable_witness :
  exists p,
    _settings_part sample_settings (loaded footer_no_id) =
      Returns p (created SETTINGS (SettingsPart sample_settings) (loaded footer_no_id)) /\
    _settings_part sample_settings
      (after sample_styles sample_settings [Op_styles; Op_numbering_part]
         (created SETTINGS (SettingsPart sample_settings) (loaded footer_no_id)))
    = Returns p
        (looked_up SETTINGS
           (after sample_styles sample_settings [Op_styles; Op_numbering_part]
              (created SETTINGS (SettingsPart sample_settings) (loaded footer_no_id)))) /\
    nth_error
      (objects (after sample_styles sample_settings [Op_styles; Op_numbering_part]
                  (created SETTINGS (SettingsPart sample_settings) (loaded footer_no_id)))) p
    = Some (SettingsPart sample_settings) /\
    settings sample_settings
      (after sample_styles sample_settings [Op_styles; Op_numbering_part]
         (created SETTINGS (SettingsPart sample_settings) (loaded footer_no_id)))
    = Returns sample_settings
        (looked_up SETTINGS
           (after sample_styles sample_settings [Op_styles; Op_numbering_part]
              (created SETTINGS (SettingsPart sample_settings) (loaded footer_no_id)))).
Proof.
  exact (settings_stable sample_styles sample_settings (loaded footer_no_id)
           (created SETTINGS (SettingsPart sample_settings) (loaded footer_no_id))
           sample_settings [Op_styles; Op_numbering_part] eq_refl).
Defined.

(** [settings] on a part loaded without relationships. *)
Lemma settings_returns_witness :
  kinds_ok (loaded footer_no_id) /\
  exists stg,
    settings sample_settings (loaded footer_no_id) =
      Returns stg (final (_settings_part sample_settings (loaded footer_no_id))) /\
    stg = sample_settings /\
    rels (final (_settings_part sample_settings (loaded footer_no_id))) =
      [mkRel SETTINGS 0].
Proof.
  split; [reflexivity |].
  exact (settings_returns sample_settings (loaded footer_no_id) eq_refl).
Defined.


(** A failing look-up on a part loaded without relationships. *)
Lemma style_lookup_builds_styles_part_witness :
  value (get_style_id sample_styles (Some "NoSuchStyle"%string) PARAGRAPH
           (loaded footer_no_id)) = inl StyleNotFound /\
  final (get_style sample_styles (Some "NoSuchStyle"%string) PARAGRAPH (loaded footer_no_id))
    = created STYLES (StylesPart sample_styles) (loaded footer_no_id) /\
  final (get_style_id sample_styles (Some "NoSuchStyle"%string) PARAGRAPH
           (loaded footer_no_id))
    = created STYLES (StylesPart sample_styles) (loaded footer_no_id).
Proof.
  split; [reflexivity |].
  apply (style_lookup_builds_styles_part sample_styles (loaded footer_no_id) eq_refl).
Defined.

(** The settings part built on a part loaded with a styles part. *)
Lemma new_part_is_fresh_witness :
  kinds_ok loaded_with_styles /\
  exists p s',
    access sample_styles sample_settings The_settings_part loaded_with_styles
      = Returns p s' /\
    nth_error (objects s') p =
      Some (default_part sample_styles sample_settings The_settings_part) /\
    forall r, In r (rels loaded_with_styles) -> target_part r <> p.
Proof.
  split; [reflexivity |].
  apply (new_part_is_fresh sample_styles sample_settings The_settings_part
           loaded_with_styles); reflexivity.
Defined.

(** The styles part and the numbering part of a part loaded without
    relationships. *)
Lemma accessors_return_distinct_parts_witness :
  access sample_styles sample_settings The_styles_part (loaded footer_no_id) =
    Returns 0%nat (created STYLES (StylesPart sample_styles) (loaded footer_no_id)) /\
  value (access sample_styles sample_settings The_numbering_part
           (created STYLES (StylesPart sample_styles) (loaded footer_no_id))) =
    inr 1%nat /\
  0%nat <> 1%nat.
Proof.
  split; [reflexivity |]. split; [reflexivity |].
  apply (accessors_return_distinct_parts sample_styles sample_settings
           The_styles_part The_numbering_part
           (loaded footer_no_id)
           (created STYLES (StylesPart sample_styles) (loaded footer_no_id))
           (set_lazy_numbering_part (Some 1%nat)
              (created NUMBERING NumberingPart
                 (created STYLES (StylesPart sample_styles) (loaded footer_no_id))))).
  - reflexivity.
  - intros p H. discriminate H.
  - reflexivity.
  - reflexivity.
  - discriminate.
Defined.

(** The styles accessor and the numbering accessor in both orders, on a
    part loaded without relationships. *)
Lemma access_order_irrelevant_witness :
  (forall T,
     count_rels T (final (access sample_styles sample_settings The_numbering_part
                            (final (access sample_styles sample_settings The_styles_part
                                      (loaded footer_no_id))))) =
     count_rels T (final (access sample_styles sample_settings The_styles_part
                            (final (access sample_styles sample_settings The_numbering_part
                                      (loaded footer_no_id)))))) /\
  length (objects (final (access sample_styles sample_settings The_numbering_part
                            (final (access sample_styles sample_settings The_styles_part
                                      (loaded footer_no_id)))))) =
  length (objects (final (access sample_styles sample_settings The_styles_part
                            (final (access sample_styles sample_settings The_numbering_part
                                      (loaded footer_no_id)))))).
Proof.
  apply (access_order_irrelevant sample_styles sample_settings
           The_styles_part The_numbering_part (loaded footer_no_id)).
  discriminate.
Defined.

